(** * resume_builder: the vault traversal and the suggestion request

    A shallow embedding of [resume_builder.py].  Python [str] values are
    modelled as [string] (sequences of bytes of the UTF-8 encoding: the
    characters the code inspects, '/', '.', '[', ']' and the newline, are
    single bytes that never occur inside a multi-byte sequence).  The file
    system, the HTTP endpoint and the exception messages are parameters of
    the model. *)

From Stdlib Require Import String Ascii List ZArith Lia Bool SpecFloat.
From stdpp Require Import base decidable list gmap sets strings pretty.
Import ListNotations.
Local Open Scope string_scope.
Local Open Scope list_scope.

(** ** Python string and [posixpath] primitives *)

Module Py.

Definition slash : ascii := "/"%char.
Definition newline : ascii := "010"%char.

(** [nl] is the one-character string "\n". *)
Definition nl : string := String newline EmptyString.

Definition is_slash (c : ascii) : bool := Ascii.eqb c slash.

(** ['/' in s] *)
Fixpoint has_slash (s : string) : bool :=
  match s with
  | EmptyString => false
  | String c s' => is_slash c || has_slash s'
  end.

(** [s.startswith(p)] *)
Fixpoint startswith (s p : string) : bool :=
  match p, s with
  | EmptyString, _ => true
  | String _ _, EmptyString => false
  | String a p', String b s' => Ascii.eqb a b && startswith s' p'
  end.

(** [s.endswith(suf)]: some tail of [s] is [suf]. *)
Fixpoint endswith (s suf : string) : bool :=
  String.eqb s suf ||
  match s with
  | EmptyString => false
  | String _ s' => endswith s' suf
  end.

(** [s[n:]] *)
Fixpoint drop (n : nat) (s : string) : string :=
  match n, s with
  | O, _ => s
  | S _, EmptyString => EmptyString
  | S n', String _ s' => drop n' s'
  end.

(** [posixpath.basename]: [p[p.rfind('/') + 1:]]. *)
Fixpoint basename (p : string) : string :=
  match p with
  | EmptyString => EmptyString
  | String c p' =>
      if has_slash p' then basename p'
      else if is_slash c then p' else p
  end.

(** [p[:p.rfind('/') + 1]], the part of [p] that [basename] drops. *)
Fixpoint head_of (p : string) : string :=
  match p with
  | EmptyString => EmptyString
  | String c p' =>
      if has_slash p' then String c (head_of p')
      else if is_slash c then String c EmptyString else EmptyString
  end.

(** [s == '/' * len(s)] *)
Fixpoint all_slashes (s : string) : bool :=
  match s with
  | EmptyString => true
  | String c s' => is_slash c && all_slashes s'
  end.

(** [s.rstrip('/')] *)
Fixpoint rstrip_slash (s : string) : string :=
  match s with
  | EmptyString => EmptyString
  | String c s' => if all_slashes s then EmptyString else String c (rstrip_slash s')
  end.

(** [posixpath.dirname]:
    [head = p[:i]; if head and head != '/'*len(head): head = head.rstrip('/')]. *)
Definition dirname (p : string) : string :=
  let head := head_of p in
  if negb (String.eqb head EmptyString) && negb (all_slashes head)
  then rstrip_slash head else head.

(** [len(s)]: the number of code points, that is of bytes that are not
    UTF-8 continuation bytes (0x80-0xBF). *)
Fixpoint len (s : string) : nat :=
  match s with
  | EmptyString => O
  | String c s' =>
      let n := nat_of_ascii c in
      if Nat.leb 128 n && Nat.ltb n 192 then len s' else S (len s')
  end.

(** [posixpath.join(a, b)] with two arguments. *)
Definition join (a b : string) : string :=
  if startswith b "/" then b
  else if String.eqb a EmptyString || endswith a "/" then a +:+ b
  else a +:+ "/" +:+ b.

End Py.

(** ** [re.findall(r'\[\[(.*?)\]\]', content)] *)

Module Re.

(** Matching [(.*?)\]\]] at the start of [s]: the shortest run of
    characters other than the newline that is followed by "]]".  Returns
    the captured group and what follows the match. *)
Fixpoint lazy_until_close (s : string) : option (string * string) :=
  if Py.startswith s "]]" then Some (EmptyString, Py.drop 2 s)
  else match s with
       | EmptyString => None
       | String c s' =>
           if Ascii.eqb c Py.newline then None
           else match lazy_until_close s' with
                | Some (group, rest) => Some (String c group, rest)
                | None => None
                end
       end.

(** One attempt of the whole pattern at the start of [s]. *)
Definition match_here (s : string) : option (string * string) :=
  if Py.startswith s "[[" then lazy_until_close (Py.drop 2 s) else None.

(** The scan of [findall]: try the pattern at the current position; after
    a match continue behind it, otherwise move one character on.  [fuel]
    bounds the number of positions tried. *)
Fixpoint findall_from (fuel : nat) (s : string) : list string :=
  match fuel with
  | O => []
  | S fuel' =>
      match match_here s with
      | Some (group, rest) => group :: findall_from fuel' rest
      | None =>
          match s with
          | EmptyString => []
          | String _ s' => findall_from fuel' s'
          end
      end
  end.

Definition findall (content : string) : list string :=
  findall_from (S (String.length content)) content.

End Re.

(** ** The file system, as [parse_obsidian_vault] observes it *)

(** Outcome of [open(path, 'r', encoding='utf-8')] followed by [f.read()]:
    the text of the file, or the message of the exception raised. *)
Inductive read_result : Type :=
| ReadOk (content : string)
| ReadError (e : string).

(** [os_walk top] is the sequence of triples [(root, dirs, files)] that
    [os.walk(top)] yields, in the order it yields them. *)
Record FileSystem : Type := {
  os_walk : string -> list (string * list string * list string);
  os_path_exists : string -> bool;
  open_read : string -> read_result
}.

(** ** [parse_obsidian_vault] *)

Definition md : string := ".md".

(** Lines 34-37: the name under which a link is looked up and remembered. *)
Definition note_name (current_note_path_link : string) : string :=
  if Py.endswith current_note_path_link md
  then Py.basename current_note_path_link
  else Py.basename current_note_path_link +:+ md.

(** The normalization applied to a whole identifier: the identifier as it
    is when it ends with the extension, the identifier with the extension
    appended otherwise (the wording of the specification). *)
Definition note_name_as_specified (identifier : string) : string :=
  if Py.endswith identifier md then identifier else identifier +:+ md.

(** [current_note_name in files] *)
Definition name_in (name : string) (files : list string) : bool :=
  existsb (String.eqb name) files.

(** Lines 43-47: the first directory of the walk that lists the name. *)
Fixpoint search_walk (current_note_name : string)
    (walk : list (string * list string * list string)) : option string :=
  match walk with
  | [] => None
  | (root, _, files) :: walk' =>
      if name_in current_note_name files
      then Some (Py.join root current_note_name)
      else search_walk current_note_name walk'
  end.

(** Lines 51-53: the path tried when the walk finds nothing. *)
Definition potential_path (base_dir current_note_path_link : string) : string :=
  let p := Py.join base_dir current_note_path_link in
  if Py.endswith p md then p else p +:+ md.

(** Lines 43-55: [found_path], or [None].  The tests [if not found_path]
    are tests for [None]: a path produced here ends with the note name and
    is never the empty string (see [find_note_not_empty]). *)
Definition find_note (fs : FileSystem) (base_dir current_note_path_link : string)
    : option string :=
  match search_walk (note_name current_note_path_link) (os_walk fs base_dir) with
  | Some found_path => Some found_path
  | None =>
      let p := potential_path base_dir current_note_path_link in
      if os_path_exists fs p then Some p else None
  end.

(** The lines printed at lines 59 and 74. *)
Definition warning_line (current_note_path_link : string) : string :=
  "Warning: Could not find linked note: " +:+ current_note_path_link.

Definition read_error_line (found_path e : string) : string :=
  "An error occurred while reading " +:+ found_path +:+ ": " +:+ e.

(** One block of the corpus: the text appended at line 65. *)
Definition note_block (found_path content : string) : string :=
  Py.nl +:+ Py.nl +:+ "--- NOTE: " +:+ Py.basename found_path +:+ " ---" +:+ Py.nl +:+ Py.nl
  +:+ content.

(** A record of one successful visit: the name put in [visited_notes], the
    path read and the text read. *)
Record entry : Type := {
  entry_name : string;
  entry_path : string;
  entry_content : string
}.

(** The variables of the loop.  [printed] collects the lines written by
    [print]; [entries] is a history of the blocks appended to
    [vault_content], kept for stating properties (the code has no such
    variable). *)
Record state : Type := {
  vault_content : string;
  notes_to_visit : list string;
  visited_notes : gset string;
  printed : list string;
  entries : list entry
}.

Definition initial_state (master_note_path : string) : state :=
  {| vault_content := "";
     notes_to_visit := [master_note_path];
     visited_notes := ∅;
     printed := [];
     entries := [] |}.

Section Traversal.

Variable fs : FileSystem.
Variable base_dir : string.

(** Lines 30-74: one iteration, for the link popped from the front and the
    rest of the queue. *)
Definition loop_body (st : state) (current_note_path_link : string)
    (rest : list string) : state :=
  let current_note_name := note_name current_note_path_link in
  if decide (current_note_name ∈ visited_notes st) then
    {| vault_content := vault_content st;
       notes_to_visit := rest;
       visited_notes := visited_notes st;
       printed := printed st;
       entries := entries st |}
  else
    match find_note fs base_dir current_note_path_link with
    | None =>
        {| vault_content := vault_content st;
           notes_to_visit := rest;
           visited_notes := visited_notes st;
           printed := printed st ++
             [warning_line current_note_path_link];
           entries := entries st |}
    | Some found_path =>
        match open_read fs found_path with
        | ReadOk content =>
            {| vault_content := vault_content st +:+ note_block found_path content;
               notes_to_visit := rest ++ Re.findall content;
               visited_notes := visited_notes st ∪ {[ current_note_name ]};
               printed := printed st;
               entries := entries st ++
                 [{| entry_name := current_note_name;
                     entry_path := found_path;
                     entry_content := content |}] |}
        | ReadError e =>
            {| vault_content := vault_content st;
               notes_to_visit := rest;
               visited_notes := visited_notes st;
               printed := printed st ++
                 [read_error_line found_path e];
               entries := entries st |}
        end
    end.

(** The test of [while notes_to_visit:] and one iteration; [None] when the
    loop exits. *)
Definition step (st : state) : option state :=
  match notes_to_visit st with
  | [] => None
  | current_note_path_link :: rest => Some (loop_body st current_note_path_link rest)
  end.

(** The while loop, run for at most [fuel] iterations: the state at the
    exit, or [None] when [fuel] iterations do not reach the exit. *)
Fixpoint run (fuel : nat) (st : state) : option state :=
  match step st with
  | None => Some st
  | Some st' =>
      match fuel with
      | O => None
      | S fuel' => run fuel' st'
      end
  end.

(** The state after exactly [k] iterations, if the loop makes that many. *)
Fixpoint iterate (k : nat) (st : state) : option state :=
  match k with
  | O => Some st
  | S k' =>
      match step st with
      | None => None
      | Some st' => iterate k' st'
      end
  end.

End Traversal.

(** Lines 24-76.  [None] only when [fuel] iterations are not enough. *)
Definition traverse (fuel : nat) (fs : FileSystem) (master_note_path : string)
    : option state :=
  run fs (Py.dirname master_note_path) fuel (initial_state master_note_path).

Definition parse_obsidian_vault (fuel : nat) (fs : FileSystem)
    (master_note_path : string) : option string :=
  match traverse fuel fs master_note_path with
  | Some st => Some (vault_content st)
  | None => None
  end.

(** ** Notions used to state the properties of the traversal *)

(** A link loads when its note is found and read: the path and the text. *)
Definition load (fs : FileSystem) (base_dir link : string) : option (string * string) :=
  match find_note fs base_dir link with
  | Some found_path =>
      match open_read fs found_path with
      | ReadOk content => Some (found_path, content)
      | ReadError _ => None
      end
  | None => None
  end.

(** The links reachable from the root: the root itself, and every link
    that occurs in the text loaded for a reachable link. *)
Inductive reachable (fs : FileSystem) (base_dir root : string) : string -> Prop :=
| reach_root : reachable fs base_dir root root
| reach_link (l found_path content l' : string) :
    reachable fs base_dir root l ->
    load fs base_dir l = Some (found_path, content) ->
    l' ∈ Re.findall content ->
    reachable fs base_dir root l'.

(** The names listed anywhere in a walk. *)
Definition walk_names (walk : list (string * list string * list string))
    : list string :=
  concat (map snd walk).

(** A finite vault: the last components of the paths that exist are among
    finitely many names. *)
Definition finite_vault (fs : FileSystem) (names : list string) : Prop :=
  forall p, os_path_exists fs p = true -> Py.basename p ∈ names.

(** The links of the vault form a graph on documents: two reachable links
    with the same note name load the same note. *)
Definition link_graph (fs : FileSystem) (base_dir root : string) : Prop :=
  forall l l',
    reachable fs base_dir root l -> reachable fs base_dir root l' ->
    note_name l = note_name l' ->
    load fs base_dir l = load fs base_dir l'.

(** Number of blocks of the corpus recorded under a name. *)
Definition entries_named (name : string) (es : list entry) : nat :=
  length (filter (fun e => entry_name e = name) es).

(** The corpus as the concatenation of the blocks of its entries. *)
Definition render (es : list entry) : string :=
  fold_right (fun e acc => note_block (entry_path e) (entry_content e) +:+ acc) "" es.

(** A link has been dealt with once its note is in [visited_notes] or it
    cannot be loaded. *)
Definition settled (fs : FileSystem) (base_dir : string) (visited : gset string)
    (l : string) : Prop :=
  note_name l ∈ visited \/ load fs base_dir l = None.

(** What every iteration of the loop preserves. *)
Record invariant (fs : FileSystem) (base_dir root : string) (st : state) : Prop := {
  (** the corpus is the concatenation of the recorded blocks *)
  inv_render : vault_content st = render (entries st);
  (** the visited names are the names of the recorded blocks *)
  inv_visited : forall name, name ∈ visited_notes st <-> name ∈ map entry_name (entries st);
  (** no name is recorded twice *)
  inv_nodup : NoDup (map entry_name (entries st));
  (** every block was loaded through a reachable link of its name *)
  inv_entries :
    forall e, e ∈ entries st ->
      exists l, reachable fs base_dir root l /\ note_name l = entry_name e /\
                load fs base_dir l = Some (entry_path e, entry_content e);
  (** the queue holds reachable links only *)
  inv_queue : forall l, l ∈ notes_to_visit st -> reachable fs base_dir root l;
  (** the root and the links of every block are queued or settled *)
  inv_root : root ∈ notes_to_visit st \/ settled fs base_dir (visited_notes st) root;
  inv_links :
    forall e l, e ∈ entries st -> l ∈ Re.findall (entry_content e) ->
      l ∈ notes_to_visit st \/ settled fs base_dir (visited_notes st) l
}.

(** Every reachable link that resolves to a file has exactly one block
    (the wording of the specification). *)
Definition one_entry_per_resolvable (fs : FileSystem) (master_note_path : string)
    (final : state) : Prop :=
  forall l,
    reachable fs (Py.dirname master_note_path) master_note_path l ->
    is_Some (find_note fs (Py.dirname master_note_path) l) ->
    entries_named (note_name l) (entries final) = 1.

(** The four outcomes of one iteration, as a relation between the state
    before (with the link popped and the rest of the queue) and after. *)
Inductive visit (fs : FileSystem) (base_dir : string) (st : state)
    (link : string) (rest : list string) : state -> Prop :=
| visit_seen :
    note_name link ∈ visited_notes st ->
    visit fs base_dir st link rest
      {| vault_content := vault_content st;
         notes_to_visit := rest;
         visited_notes := visited_notes st;
         printed := printed st;
         entries := entries st |}
| visit_missing :
    note_name link ∉ visited_notes st ->
    find_note fs base_dir link = None ->
    visit fs base_dir st link rest
      {| vault_content := vault_content st;
         notes_to_visit := rest;
         visited_notes := visited_notes st;
         printed := printed st ++ [warning_line link];
         entries := entries st |}
| visit_unreadable (found_path e : string) :
    note_name link ∉ visited_notes st ->
    find_note fs base_dir link = Some found_path ->
    open_read fs found_path = ReadError e ->
    visit fs base_dir st link rest
      {| vault_content := vault_content st;
         notes_to_visit := rest;
         visited_notes := visited_notes st;
         printed := printed st ++
           [read_error_line found_path e];
         entries := entries st |}
| visit_read (found_path content : string) :
    note_name link ∉ visited_notes st ->
    find_note fs base_dir link = Some found_path ->
    open_read fs found_path = ReadOk content ->
    visit fs base_dir st link rest
      {| vault_content := vault_content st +:+ note_block found_path content;
         notes_to_visit := rest ++ Re.findall content;
         visited_notes := visited_notes st ∪ {[ note_name link ]};
         printed := printed st;
         entries := entries st ++
           [{| entry_name := note_name link;
               entry_path := found_path;
               entry_content := content |}] |}.

(** *** The traversal of the acyclic graph

    The same breadth-first traversal with the same visited set, on the
    graph from which every link to a note already visited is removed: such
    a link is not put in the queue. *)

Definition forward_links (visited : gset string) (links : list string) : list string :=
  filter (fun l => note_name l ∉ visited) links.

(** [pruned visited q q']: the queue [q'] is [q] without some links to
    notes in [visited]. *)
Inductive pruned (visited : gset string) : list string -> list string -> Prop :=
| pruned_nil : pruned visited [] []
| pruned_keep (l : string) (q q' : list string) :
    pruned visited q q' -> pruned visited (l :: q) (l :: q')
| pruned_drop (l : string) (q q' : list string) :
    note_name l ∈ visited -> pruned visited q q' -> pruned visited (l :: q) q'.

(** A state with another queue. *)
Definition with_queue (st : state) (q : list string) : state :=
  {| vault_content := vault_content st;
     notes_to_visit := q;
     visited_notes := visited_notes st;
     printed := printed st;
     entries := entries st |}.

Section Acyclic.

Variable fs : FileSystem.
Variable base_dir : string.

Definition loop_body_acyclic (st : state) (current_note_path_link : string)
    (rest : list string) : state :=
  let current_note_name := note_name current_note_path_link in
  let skip (lines : list string) :=
    {| vault_content := vault_content st;
       notes_to_visit := rest;
       visited_notes := visited_notes st;
       printed := lines;
       entries := entries st |} in
  if decide (current_note_name ∈ visited_notes st) then skip (printed st)
  else
    match find_note fs base_dir current_note_path_link with
    | None =>
        skip (printed st ++
              [warning_line current_note_path_link])
    | Some found_path =>
        match open_read fs found_path with
        | ReadOk content =>
            let visited := visited_notes st ∪ {[ current_note_name ]} in
            {| vault_content := vault_content st +:+ note_block found_path content;
               notes_to_visit := rest ++ forward_links visited (Re.findall content);
               visited_notes := visited;
               printed := printed st;
               entries := entries st ++
                 [{| entry_name := current_note_name;
                     entry_path := found_path;
                     entry_content := content |}] |}
        | ReadError e =>
            skip (printed st ++
                  [read_error_line found_path e])
        end
    end.

Definition step_acyclic (st : state) : option state :=
  match notes_to_visit st with
  | [] => None
  | current_note_path_link :: rest =>
      Some (loop_body_acyclic st current_note_path_link rest)
  end.

Fixpoint run_acyclic (fuel : nat) (st : state) : option state :=
  match step_acyclic st with
  | None => Some st
  | Some st' =>
      match fuel with
      | O => None
      | S fuel' => run_acyclic fuel' st'
      end
  end.

End Acyclic.

(** *** A small vault to run the model on *)

Module Demo.

Definition walk : list (string * list string * list string) :=
  [("vault", ["notes"], ["Portfolio.md"]);
   ("vault/notes", [], ["Skills.md"; "Projects.md"])].

Definition fs : FileSystem :=
  {| os_walk := fun top => if String.eqb top "vault" then walk else [];
     os_path_exists := fun p =>
       name_in p ["vault/Portfolio.md"; "vault/notes/Skills.md";
                  "vault/notes/Projects.md"];
     open_read := fun p =>
       if String.eqb p "vault/Portfolio.md"
       then ReadOk "Me. [[Skills]] [[Projects]] [[Missing]]"
       else if String.eqb p "vault/notes/Skills.md" then ReadOk "Rocq [[Portfolio]]"
       else if String.eqb p "vault/notes/Projects.md" then ReadOk "Proofs [[Skills.md]]"
       else ReadError "No such file" |}.

Definition master : string := "vault/Portfolio.md".

End Demo.

(** *** The vault of the example: a root with two links, no further links *)

Module TwoLinks.

Definition fs : FileSystem :=
  {| os_walk := fun top =>
       if String.eqb top "vault"
       then [("vault", [], ["Portfolio.md"; "Projects.md"; "Skills.md"])] else [];
     os_path_exists := fun p =>
       name_in p ["vault/Portfolio.md"; "vault/Projects.md"; "vault/Skills.md"];
     open_read := fun p =>
       if String.eqb p "vault/Portfolio.md"
       then ReadOk "About me: [[Skills]], then [[Projects]]."
       else if String.eqb p "vault/Skills.md" then ReadOk "Rocq, OCaml"
       else if String.eqb p "vault/Projects.md" then ReadOk "A verified parser"
       else ReadError "No such file" |}.

Definition master : string := "vault/Portfolio.md".

End TwoLinks.

(** *** A vault in the working directory, named by a bare file name

    The containing directory of the root is then the empty string, and
    [os.walk('')] yields nothing. *)

Module Bare.

Definition fs : FileSystem :=
  {| os_walk := fun top =>
       if String.eqb top "." then [(".", [], ["Portfolio.md"; "Skills.md"])] else [];
     os_path_exists := fun p =>
       name_in p ["Portfolio.md"; "Skills.md"; "./Portfolio.md"; "./Skills.md"];
     open_read := fun p =>
       if String.eqb p "Portfolio.md" then ReadOk "Me. [[Skills]] [[Hobbies]]"
       else if String.eqb p "Skills.md" then ReadOk "Rocq"
       else ReadError "No such file" |}.

Definition master : string := "Portfolio.md".

End Bare.

(** *** A vault where the walk finds the name of the root in another
    directory than the one of the path given *)

Module Shadowed.

Definition fs : FileSystem :=
  {| os_walk := fun top =>
       if String.eqb top "vault"
       then [("vault", ["archive"], ["Portfolio"; "Skills.md"]);
             ("vault/archive", [], ["Portfolio.md"])]
       else [];
     os_path_exists := fun p =>
       name_in p ["vault/Portfolio"; "vault/Skills.md"; "vault/archive/Portfolio.md"];
     open_read := fun p =>
       if String.eqb p "vault/Portfolio" then ReadOk "Current portfolio [[Skills]]"
       else if String.eqb p "vault/archive/Portfolio.md" then ReadOk "Old portfolio"
       else if String.eqb p "vault/Skills.md" then ReadOk "Rocq"
       else ReadError "No such file" |}.

Definition master : string := "vault/Portfolio".

End Shadowed.

(** *** A vault with a note that is found but cannot be read, and a link
    to a note that does not exist *)

Module Faulty.

Definition fs : FileSystem :=
  {| os_walk := fun top =>
       if String.eqb top "vault"
       then [("vault", [], ["Portfolio.md"; "Projects.md"; "Skills.md"])] else [];
     os_path_exists := fun p =>
       name_in p ["vault/Portfolio.md"; "vault/Projects.md"; "vault/Skills.md"];
     open_read := fun p =>
       if String.eqb p "vault/Portfolio.md"
       then ReadOk "Me. [[Skills]] [[Missing]] [[Projects]]"
       else if String.eqb p "vault/Skills.md" then ReadError "Permission denied"
       else if String.eqb p "vault/Projects.md" then ReadOk "Proofs"
       else ReadError "No such file" |}.

Definition master : string := "vault/Portfolio.md".

End Faulty.

(** ** Python values and exceptions of [generate_resume_suggestions] *)

(** The values [response.json()] can produce (and, with [JStr], Python
    [str]).  A [dict] is the list of its items, keys distinct. *)
#[local] Unset Elimination Schemes.
Inductive json : Type :=
| JNull
| JBool (b : bool)
| JInt (n : Z)
| JFloat (x : spec_float)
| JStr (s : string)
| JArr (items : list json)
| JObj (fields : list (string * json)).
#[local] Set Elimination Schemes.

(** The exceptions the modelled operations raise.  [BaseExc] stands for the
    exceptions outside the [Exception] hierarchy (KeyboardInterrupt,
    SystemExit), which no handler of the program catches. *)
Inductive exn : Type :=
| TransportError (detail : string)  (* ConnectionError, Timeout, MissingSchema, ... *)
| HTTPError (status_code : Z)       (* raised by [raise_for_status] *)
| JSONDecodeError (of_requests : bool)
| TypeError (operation : string) (operand : json)
| KeyError (key : json)
| IndexError
| FileNotFoundError (path : string)
| OtherError (detail : string)
| BaseExc (detail : string).

(** [isinstance(e, requests.exceptions.RequestException)] *)
Definition is_request_exception (e : exn) : bool :=
  match e with
  | TransportError _ | HTTPError _ => true
  | JSONDecodeError of_requests => of_requests
  | _ => false
  end.

(** [isinstance(e, Exception)] *)
Definition is_exception (e : exn) : bool :=
  match e with
  | BaseExc _ => false
  | _ => true
  end.

Inductive outcome (A : Type) : Type :=
| Ok (a : A)
| Raise (e : exn).
Arguments Ok {A} a.
Arguments Raise {A} e.

Definition bind {A B : Type} (m : outcome A) (k : A -> outcome B) : outcome B :=
  match m with
  | Ok a => k a
  | Raise e => Raise e
  end.

Notation "x <- m ;; k" := (bind m (fun x => k))
  (at level 100, m at next level, right associativity).

Module PyVal.

(** [bool(v)] *)
Definition truthy (v : json) : bool :=
  match v with
  | JNull => false
  | JBool b => b
  | JInt n => negb (Z.eqb n 0)
  | JFloat x => match x with S754_zero _ => false | _ => true end
  | JStr s => negb (String.eqb s "")
  | JArr items => match items with [] => false | _ => true end
  | JObj fields => match fields with [] => false | _ => true end
  end.

(** [key in s] for two strings: [key] occurs in [s]. *)
Fixpoint occurs_in (key s : string) : bool :=
  Py.startswith s key ||
  match s with
  | EmptyString => false
  | String _ s' => occurs_in key s'
  end.

Definition is_str (key : string) (v : json) : bool :=
  match v with
  | JStr s => String.eqb s key
  | _ => false
  end.

Fixpoint lookup_field (key : string) (fields : list (string * json)) : option json :=
  match fields with
  | [] => None
  | (k, v) :: fields' => if String.eqb k key then Some v else lookup_field key fields'
  end.

(** [key in v] for a string [key]. *)
Definition contains (key : string) (v : json) : outcome bool :=
  match v with
  | JObj fields =>
      Ok (match lookup_field key fields with Some _ => true | None => false end)
  | JArr items => Ok (existsb (is_str key) items)
  | JStr s => Ok (occurs_in key s)
  | _ => Raise (TypeError "in" v)
  end.

(** [v[key]] for a string [key]. *)
Definition getitem (v : json) (key : string) : outcome json :=
  match v with
  | JObj fields =>
      match lookup_field key fields with
      | Some x => Ok x
      | None => Raise (KeyError (JStr key))
      end
  | _ => Raise (TypeError "getitem" v)
  end.

(** The first character of a text that starts with the byte [c]: in UTF-8
    the first byte says how many bytes follow it in the character. *)
Definition first_char (c : ascii) (s' : string) : string :=
  let n := nat_of_ascii c in
  String c (String.substring 0
              (if Nat.ltb n 192 then 0
               else if Nat.ltb n 224 then 1
               else if Nat.ltb n 240 then 2
               else 3) s').

(** [v[0]] *)
Definition getitem0 (v : json) : outcome json :=
  match v with
  | JArr (x :: _) => Ok x
  | JArr [] => Raise IndexError
  | JStr (String c s') => Ok (JStr (first_char c s'))
  | JStr EmptyString => Raise IndexError
  | JObj _ => Raise (KeyError (JInt 0))
  | _ => Raise (TypeError "getitem" v)
  end.

End PyVal.

(** ** [generate_resume_suggestions] *)

Record request : Type := {
  req_url : option string;
  req_headers : list (string * string);
  req_json : json;
  req_timeout : Z
}.

(** What the code uses of a [requests.Response]. *)
Record response : Type := {
  status_code : Z;
  response_json : outcome json
}.

(** The endpoint and the library functions whose text is not modelled. *)
Record Api : Type := {
  API_URL : option string;
  requests_post : request -> outcome response;
  json_dumps : json -> string;
  exn_str : exn -> string
}.

(** [response.raise_for_status()] *)
Definition raise_for_status (r : response) : outcome unit :=
  if Z.leb 400 (status_code r) && Z.ltb (status_code r) 600
  then Raise (HTTPError (status_code r))
  else Ok tt.

Definition prompt_head : string :=
"
    You are an expert career coach and resume writer. Your task is to help me tailor my resume for a specific job.

    I will provide you with two pieces of information:
    1.  **My Professional Portfolio:** This is a compilation of all my skills, experiences, projects, and education, exported from my Obsidian knowledge base.
    2.  **The Target Job Description:** This is the description of the job I am applying for.

    Based on this information, please generate a structured set of suggestions for my resume. The output should be a text file with clear, actionable advice. Follow this format exactly:

    **[Resume Summary]**
    Write a 2-3 sentence professional summary that highlights my most relevant qualifications from my portfolio that match the job description.

    **[Experience to Highlight]**
    For each of my past jobs, identify the 2-3 most relevant bullet points that align with the job description's requirements. If possible, suggest rephrasing them to include keywords from the job description.
    - **Job Title 1:**
      - Suggested Bullet Point 1
      - Suggested Bullet Point 2
    - **Job Title 2:**
      - Suggested Bullet Point 1
      - ...

    **[Projects to Feature]**
    List the top 1-2 projects from my portfolio that best demonstrate the skills needed for this job. For each project, write a brief, impactful description.

    **[Skills to Emphasize]**
    List the top 5-7 technical and soft skills from my portfolio that are most critical for this role, based on the job description.

    ---

    **My Professional Portfolio:**
    ".

Definition prompt_mid : string :=
"

    ---

    **The Target Job Description:**
    ".

Definition prompt_tail : string :=
"
    ".

Definition build_prompt (portfolio_context job_description : string) : string :=
  prompt_head +:+ portfolio_context +:+ prompt_mid +:+ job_description +:+ prompt_tail.

Definition build_request (api : Api) (prompt : string) : request :=
  {| req_url := API_URL api;
     req_headers := [("Content-Type", "application/json")];
     req_json :=
       JObj [("contents", JArr [JObj [("parts", JArr [JObj [("text", JStr prompt)]])]])];
     req_timeout := 120 |}.

(** Lines 140-145, once [result] is at hand. *)
Definition extract_text (api : Api) (result : json) : outcome json :=
  has_candidates <- PyVal.contains "candidates" result ;;
  nonempty <- (if has_candidates : bool
               then (cs <- PyVal.getitem result "candidates" ;; Ok (PyVal.truthy cs))
               else Ok false) ;;
  usable <-
    (if nonempty : bool then
       cs <- PyVal.getitem result "candidates" ;;
       candidate <- PyVal.getitem0 cs ;;
       has_content <- PyVal.contains "content" candidate ;;
       has_parts <- (if has_content : bool
                     then (content <- PyVal.getitem candidate "content" ;;
                           PyVal.contains "parts" content)
                     else Ok false) ;;
       (if has_parts : bool
        then (content <- PyVal.getitem candidate "content" ;;
              parts <- PyVal.getitem content "parts" ;;
              Ok (if PyVal.truthy parts then Some candidate else None))
        else Ok None)
     else Ok None) ;;
  match usable with
  | Some candidate =>
      content <- PyVal.getitem candidate "content" ;;
      parts <- PyVal.getitem content "parts" ;;
      part <- PyVal.getitem0 parts ;;
      PyVal.getitem part "text"
  | None =>
      Ok (JStr ("Error: Could not extract valid content from API response. Full response: "
                +:+ json_dumps api result))
  end.

(** Lines 135-145: the body of the [try]. *)
Definition try_body (api : Api) (req : request) : outcome json :=
  response <- requests_post api req ;;
  _ <- raise_for_status response ;;
  result <- response_json response ;;
  extract_text api result.

(** Lines 134-150: the value returned, or the exception that escapes, and
    the requests sent. *)
Definition generate_resume_suggestions (api : Api)
    (portfolio_context job_description : string) : outcome json * list request :=
  let req := build_request api (build_prompt portfolio_context job_description) in
  (match try_body api req with
   | Ok v => Ok v
   | Raise e =>
       if is_request_exception e
       then Ok (JStr ("An error occurred with the API request: " +:+ exn_str api e))
       else if is_exception e
       then Ok (JStr ("An unexpected error occurred: " +:+ exn_str api e))
       else Raise e
   end, [req]).

(** The text of the first candidate, when the response has the structure
    the code expects: an object whose "candidates" is a list that starts
    with an object, whose "content" is an object, whose "parts" is a list
    that starts with an object with a "text". *)
Definition expected_text (result : json) : option json :=
  match result with
  | JObj fields =>
      match PyVal.lookup_field "candidates" fields with
      | Some (JArr (JObj candidate :: _)) =>
          match PyVal.lookup_field "content" candidate with
          | Some (JObj content) =>
              match PyVal.lookup_field "parts" content with
              | Some (JArr (JObj part :: _)) => PyVal.lookup_field "text" part
              | _ => None
              end
          | _ => None
          end
      | _ => None
      end
  | _ => None
  end.

(** The two forms of the error text returned for a response without that
    structure. *)
Definition extraction_error (api : Api) (result : json) (msg : string) : Prop :=
  msg = "Error: Could not extract valid content from API response. Full response: "
        +:+ json_dumps api result \/
  exists e, is_exception e = true /\
            msg = "An unexpected error occurred: " +:+ exn_str api e.

(** ** [main] *)

(** What a run does to the outside world, in order. *)
Inductive event : Type :=
| EvPrint (text : string)
| EvOpenRead (path : string)
| EvPost (req : request)
| EvOpenWrite (path : string)
| EvWrite (text : string).

Record World : Type := {
  world_fs : FileSystem;
  world_api : Api;
  (** [open(path, 'r', encoding='utf-8')] and [f.read()] of line 173-174 *)
  read_text : string -> outcome string;
  (** [f.write(text)] of line 189 on the file just opened for writing *)
  write_text : string -> string -> outcome unit;
  (** [open(path, 'w', encoding='utf-8')] of line 188 *)
  open_write : string -> outcome unit;
  (** [str(v)], as [print] shows a value *)
  py_str : json -> string
}.

Definition output_filename : string := "resume_suggestions.txt".

(** Lines 186-194. *)
Definition save_suggestions (w : World) (suggestions : json)
    : list event * option exn :=
  let attempt : list event * outcome unit :=
    match open_write w output_filename with
    | Raise e => ([EvOpenWrite output_filename], Raise e)
    | Ok _ =>
        match suggestions with
        | JStr text =>
            ([EvOpenWrite output_filename; EvWrite text], write_text w output_filename text)
        | v => ([EvOpenWrite output_filename], Raise (TypeError "write" v))
        end
    end in
  match attempt with
  | (evs, Ok _) =>
      (evs ++ [EvPrint (Py.nl +:+ "Success! Your resume suggestions have been saved to '"
                      +:+ output_filename +:+ "'")], None)
  | (evs, Raise e) =>
      if is_exception e then
        (evs ++ [EvPrint (Py.nl +:+ "An error occurred while writing the output file: "
                        +:+ exn_str (world_api w) e);
                 EvPrint (Py.nl +:+ "--- AI Response ---");
                 EvPrint (match suggestions with JStr text => text | v => py_str w v end)],
         None)
      else (evs, Some e)
  end.

(** Lines 169-194: the run after a non-empty corpus. *)
Definition main_continue (w : World) (portfolio_context job_description_path : string)
    : list event * option exn :=
  let evs :=
    [EvPrint ("Successfully parsed " +:+ pretty (Py.len portfolio_context)
            +:+ " characters of portfolio data.");
     EvPrint (Py.nl +:+ "Step 2: Reading job description...");
     EvOpenRead job_description_path] in
  match read_text w job_description_path with
  | Raise (FileNotFoundError p) =>
      (evs ++ [EvPrint ("Error: Job description file not found at "
                      +:+ job_description_path)], None)
  | Raise e =>
      if is_exception e then
        (evs ++ [EvPrint ("An error occurred while reading the job description: "
                        +:+ exn_str (world_api w) e)], None)
      else (evs, Some e)
  | Ok job_description =>
      let evs := evs ++
        [EvPrint "Successfully read job description.";
         EvPrint (Py.nl +:+ "Step 3: Generating tailored resume suggestions with AI...")] in
      let '(suggestions, reqs) :=
        generate_resume_suggestions (world_api w) portfolio_context job_description in
      let evs := evs ++ map EvPost reqs in
      match suggestions with
      | Raise e => (evs, Some e)
      | Ok v => let '(evs', esc) := save_suggestions w v in (evs ++ evs', esc)
      end
  end.

(** Lines 163-194, after the arguments are parsed: the events of the run
    and the exception that escapes, if any.  [None] only when [fuel]
    iterations are not enough for the traversal.  Every [print] is taken
    to succeed: the exceptions followed are those of the reads, the
    request and the writes. *)
Definition main (fuel : nat) (w : World) (portfolio_path job_description_path : string)
    : option (list event * option exn) :=
  match traverse fuel (world_fs w) portfolio_path with
  | None => None
  | Some st =>
      let evs := EvPrint "Step 1: Parsing your Obsidian portfolio..."
                 :: map EvPrint (printed st) in
      let portfolio_context := vault_content st in
      if String.eqb portfolio_context ""
      then Some (evs ++ [EvPrint "Could not parse portfolio. Exiting."], None)
      else
        let '(evs', esc) := main_continue w portfolio_context job_description_path in
        Some (evs ++ evs', esc)
  end.

(** The events that the early exit must not contain. *)
Definition is_later_stage (ev : event) : bool :=
  match ev with
  | EvPrint _ => false
  | EvOpenRead _ | EvPost _ | EvOpenWrite _ | EvWrite _ => true
  end.

(** *** A world whose vault is missing *)

Module NoVault.

Definition fs : FileSystem :=
  {| os_walk := fun _ => [];
     os_path_exists := fun _ => false;
     open_read := fun _ => ReadError "No such file" |}.

Definition api : Api :=
  {| API_URL := Some "https://example.invalid/generate";
     requests_post := fun _ => Raise (TransportError "connection refused");
     json_dumps := fun _ => "{}";
     exn_str := fun _ => "error" |}.

Definition world : World :=
  {| world_fs := fs;
     world_api := api;
     read_text := fun p => Raise (FileNotFoundError p);
     write_text := fun _ _ => Ok tt;
     open_write := fun _ => Ok tt;
     py_str := fun _ => "" |}.

End NoVault.

(** *** Endpoints to run the request on *)

Module Endpoint.

Definition describe (e : exn) : string :=
  match e with
  | HTTPError _ => "500 Server Error: Internal Server Error for url"
  | TransportError detail => detail
  | KeyError _ => "'text'"
  | _ => "error"
  end.

(** An endpoint that answers HTTP 500. *)
Definition failing : Api :=
  {| API_URL := Some "https://example.invalid/generate";
     requests_post := fun _ =>
       Ok {| status_code := 500; response_json := Raise (JSONDecodeError true) |};
     json_dumps := fun _ => "{}";
     exn_str := describe |}.

Definition answer (body : json) : Api :=
  {| API_URL := Some "https://example.invalid/generate";
     requests_post := fun _ => Ok {| status_code := 200; response_json := Ok body |};
     json_dumps := fun _ => "{}";
     exn_str := describe |}.

Definition good_body : json :=
  JObj [("candidates",
         JArr [JObj [("content",
                      JObj [("parts", JArr [JObj [("text", JStr "Lead with Rocq.")]]);
                            ("role", JStr "model")])]])].

Definition no_text_body : json :=
  JObj [("candidates",
         JArr [JObj [("content", JObj [("parts", JArr [JObj [("data", JNull)]])])]])].

End Endpoint.

(** ** Notions used to state further properties *)

(** ['\n' in s] *)
Fixpoint has_newline (s : string) : bool :=
  match s with
  | EmptyString => false
  | String c s' => Ascii.eqb c Py.newline || has_newline s'
  end.

(** The links found in the texts of a list of blocks, in order. *)
Definition links_of (es : list entry) : list string :=
  concat (map (fun e => Re.findall (entry_content e)) es).

(** *** A vault whose root links to itself *)

Module SelfLink.

Definition fs : FileSystem :=
  {| os_walk := fun top =>
       if String.eqb top "vault" then [("vault", [], ["Portfolio.md"])] else [];
     os_path_exists := fun p => String.eqb p "vault/Portfolio.md";
     open_read := fun p =>
       if String.eqb p "vault/Portfolio.md"
       then ReadOk "Back to [[Portfolio]] and [[archive/Portfolio.md]]."
       else ReadError "No such file" |}.

Definition master : string := "vault/Portfolio.md".

End SelfLink.

(** *** A vault with a link that is an absolute path *)

Module Outside.

Definition fs : FileSystem :=
  {| os_walk := fun top =>
       if String.eqb top "vault" then [("vault", [], ["Portfolio.md"])] else [];
     os_path_exists := fun p => name_in p ["vault/Portfolio.md"; "/home/me/diary.md"];
     open_read := fun p =>
       if String.eqb p "vault/Portfolio.md" then ReadOk "See [[/home/me/diary]]."
       else if String.eqb p "/home/me/diary.md" then ReadOk "Private."
       else ReadError "No such file" |}.

Definition master : string := "vault/Portfolio.md".

End Outside.

(** The events other than printed lines, in the order they occur. *)
Definition effects (evs : list event) : list event :=
  List.filter is_later_stage evs.

(** The text under [contents[0]['parts'][0]['text']] of a request body. *)
Definition payload_text (body : json) : outcome json :=
  contents <- PyVal.getitem body "contents" ;;
  first <- PyVal.getitem0 contents ;;
  parts <- PyVal.getitem first "parts" ;;
  part <- PyVal.getitem0 parts ;;
  PyVal.getitem part "text".

(** *** Worlds to run [main] on: the vault of the two links, a job
    description at "job.txt", and a disk that can be full *)

Module Office.

Definition job : string := "Wanted: a Rocq engineer.".

Definition world (api : Api) (disk_full : bool) : World :=
  {| world_fs := TwoLinks.fs;
     world_api := api;
     read_text := fun p =>
       if String.eqb p "job.txt" then Ok job else Raise (FileNotFoundError p);
     write_text := fun _ _ =>
       if disk_full then Raise (OtherError "No space left on device") else Ok tt;
     open_write := fun _ => Ok tt;
     py_str := fun v => match v with JNull => "None" | _ => "?" end |}.

(** The state in which the traversal of that vault ends. *)
Definition after_traversal : state :=
  {| vault_content :=
       note_block "vault/Portfolio.md" "About me: [[Skills]], then [[Projects]]."
       +:+ note_block "vault/Skills.md" "Rocq, OCaml"
       +:+ note_block "vault/Projects.md" "A verified parser";
     notes_to_visit := [];
     visited_notes := ((∅ ∪ {["Portfolio.md"]}) ∪ {["Skills.md"]}) ∪ {["Projects.md"]};
     printed := [];
     entries :=
       [{| entry_name := "Portfolio.md"; entry_path := "vault/Portfolio.md";
           entry_content := "About me: [[Skills]], then [[Projects]]." |};
        {| entry_name := "Skills.md"; entry_path := "vault/Skills.md";
           entry_content := "Rocq, OCaml" |};
        {| entry_name := "Projects.md"; entry_path := "vault/Projects.md";
           entry_content := "A verified parser" |}] |}.

Definition null_text_body : json :=
  JObj [("candidates",
         JArr [JObj [("content", JObj [("parts", JArr [JObj [("text", JNull)]])])]])].

End Office.

(** *** Endpoints that answer a well-formed body with a given status code *)

Module Unusual.

Definition api (code : Z) : Api :=
  {| API_URL := Some "https://example.invalid/generate";
     requests_post := fun _ =>
       Ok {| status_code := code; response_json := Ok Endpoint.good_body |};
     json_dumps := fun _ => "{}";
     exn_str := Endpoint.describe |}.

End Unusual.

(** * Properties *)

(** ** The primitives on examples *)

Example basename_ex1 : Py.basename "vault/sub/Skills.md" = "Skills.md".
Proof. reflexivity. Qed.
Example basename_ex2 : Py.basename "Skills" = "Skills".
Proof. reflexivity. Qed.
Example basename_ex3 : Py.basename "vault/" = "".
Proof. reflexivity. Qed.
Example dirname_ex1 : Py.dirname "vault/sub/Skills.md" = "vault/sub".
Proof. reflexivity. Qed.
Example dirname_ex2 : Py.dirname "Skills.md" = "".
Proof. reflexivity. Qed.
Example dirname_ex3 : Py.dirname "/Skills.md" = "/".
Proof. reflexivity. Qed.
Example dirname_ex4 : Py.dirname "a//b" = "a".
Proof. reflexivity. Qed.
Example join_ex1 : Py.join "vault" "Skills.md" = "vault/Skills.md".
Proof. reflexivity. Qed.
Example join_ex2 : Py.join "" "Skills.md" = "Skills.md".
Proof. reflexivity. Qed.
Example join_ex3 : Py.join "vault" "/etc/x" = "/etc/x".
Proof. reflexivity. Qed.
Example join_ex4 : Py.join "vault/" "" = "vault/".
Proof. reflexivity. Qed.
Example endswith_ex1 : Py.endswith "a.md" ".md" = true /\ Py.endswith "md" ".md" = false.
Proof. split; reflexivity. Qed.
Example findall_ex1 :
  Re.findall "See [[Skills]] and [[Projects]]." = ["Skills"; "Projects"].
Proof. reflexivity. Qed.
Example findall_ex2 : Re.findall "[[a]]]" = ["a"].
Proof. reflexivity. Qed.
Example findall_ex3 : Re.findall "[[[a]]" = ["[a"].
Proof. reflexivity. Qed.
Example findall_ex4 : Re.findall ("[[a" +:+ Py.nl +:+ "[[b]]") = ["b"].
Proof. reflexivity. Qed.
Example findall_ex5 : Re.findall "[[]] [[x|y]] [[" = [""; "x|y"].
Proof. reflexivity. Qed.
Example findall_ex6 : Re.findall "[[a]b]]" = ["a]b"].
Proof. reflexivity. Qed.
Example getitem0_ex1 : PyVal.getitem0 (JStr "abc") = Ok (JStr "a").
Proof. reflexivity. Qed.
Example getitem0_ex2 : PyVal.getitem0 (JStr "été") = Ok (JStr "é").
Proof. reflexivity. Qed.
Example getitem0_ex3 : PyVal.getitem0 (JStr "€uro") = Ok (JStr "€").
Proof. reflexivity. Qed.
Example getitem0_ex4 : PyVal.getitem0 (JStr "") = Raise IndexError.
Proof. reflexivity. Qed.
Example demo_run :
  parse_obsidian_vault 10 Demo.fs "vault/Portfolio.md" =
  Some (note_block "vault/Portfolio.md" "Me. [[Skills]] [[Projects]] [[Missing]]"
        +:+ note_block "vault/notes/Skills.md" "Rocq [[Portfolio]]"
        +:+ note_block "vault/notes/Projects.md" "Proofs [[Skills.md]]").
Proof. vm_compute. reflexivity. Qed.

(** ** Facts about the path primitives *)

#[local] Arguments String.append !s1 s2 : simpl nomatch.
#[local] Arguments note_block : simpl never.
#[local] Arguments PyVal.first_char : simpl never.

Section PathFacts.

Lemma append_assoc (a b c : string) : (a +:+ b) +:+ c = a +:+ (b +:+ c).
Proof. induction a as [|x a IH]; simpl; [reflexivity|]. rewrite IH. reflexivity. Qed.

Lemma append_nil_r (a : string) : a +:+ "" = a.
Proof. induction a as [|x a IH]; simpl; [reflexivity|]. rewrite IH. reflexivity. Qed.

Lemma has_slash_app (a b : string) :
  Py.has_slash (a +:+ b) = Py.has_slash a || Py.has_slash b.
Proof.
  induction a as [|c a IH]; simpl; [reflexivity|].
  rewrite IH. apply orb_assoc.
Qed.

Lemma basename_no_slash (p : string) :
  Py.has_slash p = false -> Py.basename p = p.
Proof.
  destruct p as [|c p]; simpl; [reflexivity|].
  intros H. apply orb_false_iff in H as [Hc Hp].
  rewrite Hp, Hc. reflexivity.
Qed.

Lemma has_slash_basename (p : string) : Py.has_slash (Py.basename p) = false.
Proof.
  induction p as [|c p IH]; simpl; [reflexivity|].
  destruct (Py.has_slash p) eqn:Hp; [exact IH|].
  destruct (Py.is_slash c) eqn:Hc; simpl; [exact Hp|].
  rewrite Hc, Hp. reflexivity.
Qed.

Lemma basename_app_slash (a b : string) :
  Py.has_slash b = true -> Py.basename (a +:+ b) = Py.basename b.
Proof.
  intros Hb. induction a as [|c a IH]; simpl; [reflexivity|].
  rewrite has_slash_app, Hb, orb_true_r. exact IH.
Qed.

Lemma basename_app_no_slash (a b : string) :
  Py.has_slash b = false -> Py.basename (a +:+ b) = Py.basename a +:+ b.
Proof.
  intros Hb. induction a as [|c a IH]; simpl.
  - apply basename_no_slash, Hb.
  - rewrite has_slash_app, Hb, orb_false_r.
    destruct (Py.has_slash a); [exact IH|].
    destruct (Py.is_slash c); reflexivity.
Qed.

Lemma endswith_nil (suf : string) :
  Py.endswith "" suf = String.eqb "" suf.
Proof. cbn [Py.endswith]. apply orb_false_r. Qed.

Lemma endswith_cons (c : ascii) (s suf : string) :
  Py.endswith (String c s) suf =
  String.eqb (String c s) suf || Py.endswith s suf.
Proof. reflexivity. Qed.

Lemma endswith_app (a b suf : string) :
  Py.endswith b suf = true -> Py.endswith (a +:+ b) suf = true.
Proof.
  intros Hb. induction a as [|c a IH]; [exact Hb|].
  simpl String.append. rewrite endswith_cons, IH. apply orb_true_r.
Qed.

Lemma endswith_refl (s : string) : Py.endswith s s = true.
Proof.
  destruct s; [reflexivity|].
  rewrite endswith_cons, String.eqb_refl. reflexivity.
Qed.

Lemma endswith_spec (s suf : string) :
  Py.endswith s suf = true <-> exists pre, s = pre +:+ suf.
Proof.
  split.
  - induction s as [|c s IH].
    + rewrite endswith_nil. intros H%String.eqb_eq. exists "". exact H.
    + rewrite endswith_cons. intros [H%String.eqb_eq | H]%orb_true_iff.
      * exists "". exact H.
      * destruct (IH H) as [pre ->]. exists (String c pre). reflexivity.
  - intros [pre ->]. apply endswith_app, endswith_refl.
Qed.

(** A string that ends with a slash has an empty last component. *)
Lemma basename_trailing_slash (a : string) :
  Py.endswith a "/" = true -> Py.basename a = "".
Proof.
  intros [pre ->]%endswith_spec.
  rewrite basename_app_slash; reflexivity.
Qed.

Lemma basename_join (a b : string) : Py.basename (Py.join a b) = Py.basename b.
Proof.
  unfold Py.join.
  destruct (Py.startswith b "/") eqn:Hs; [reflexivity|].
  destruct (Py.has_slash b) eqn:Hb.
  - destruct (_ || _).
    + apply basename_app_slash, Hb.
    + rewrite basename_app_slash; [apply basename_app_slash, Hb|].
      simpl. reflexivity.
  - rewrite (basename_no_slash b Hb).
    destruct (String.eqb a "") eqn:Ha; simpl.
    + apply String.eqb_eq in Ha. subst a. simpl. apply basename_no_slash, Hb.
    + destruct (Py.endswith a "/") eqn:He.
      * rewrite basename_app_no_slash by exact Hb.
        rewrite basename_trailing_slash by exact He. reflexivity.
      * rewrite basename_app_slash by reflexivity.
        simpl. rewrite Hb. reflexivity.
Qed.

Lemma endswith_join (a b suf : string) :
  Py.endswith b suf = true -> Py.endswith (Py.join a b) suf = true.
Proof.
  intros Hb. unfold Py.join.
  destruct (Py.startswith b "/"); [exact Hb|].
  destruct (_ || _); [apply endswith_app, Hb|].
  apply endswith_app. apply (endswith_app "/"), Hb.
Qed.

(** Behind a slash, only the part after it can make the string end with
    the extension. *)
Lemma endswith_md_after_slash (x b : string) :
  Py.endswith (x +:+ "/" +:+ b) md = true -> Py.endswith b md = true.
Proof.
  induction x as [|c x IH].
  - intros H. exact H.
  - simpl String.append. rewrite endswith_cons.
    intros [H%String.eqb_eq | H]%orb_true_iff; [|exact (IH H)].
    exfalso. apply (f_equal Py.has_slash) in H.
    simpl in H. rewrite has_slash_app in H. simpl in H.
    rewrite !orb_true_r in H. discriminate H.
Qed.

Lemma endswith_join_md (a b : string) :
  Py.endswith (Py.join a b) md = Py.endswith b md.
Proof.
  destruct (Py.endswith b md) eqn:Hb; [apply endswith_join, Hb|].
  apply not_true_is_false. intros H. unfold Py.join in H.
  destruct (Py.startswith b "/"); [congruence|].
  destruct (String.eqb a "") eqn:Ha; simpl in H.
  - apply String.eqb_eq in Ha. subst a. simpl in H. congruence.
  - destruct (Py.endswith a "/") eqn:He.
    + apply endswith_spec in He as [pre ->].
      rewrite append_assoc in H.
      apply endswith_md_after_slash in H. congruence.
    + apply endswith_md_after_slash in H. congruence.
Qed.

(** Whether a path ends with the extension is decided by its last
    component. *)
Lemma endswith_basename_md (p : string) :
  Py.endswith (Py.basename p) md = Py.endswith p md.
Proof.
  induction p as [|c p IH]; [reflexivity|].
  rewrite endswith_cons. simpl Py.basename.
  destruct (Py.has_slash p) eqn:Hp.
  - rewrite IH. destruct (String.eqb (String c p) md) eqn:He; [|reflexivity].
    apply String.eqb_eq in He. injection He as _ ->. discriminate Hp.
  - destruct (Py.is_slash c) eqn:Hc.
    + destruct (String.eqb (String c p) md) eqn:He; [|reflexivity].
      apply String.eqb_eq in He. injection He as -> _. discriminate Hc.
    + apply endswith_cons.
Qed.

Lemma has_slash_note_name (link : string) : Py.has_slash (note_name link) = false.
Proof.
  unfold note_name. destruct (Py.endswith link md).
  - apply has_slash_basename.
  - rewrite has_slash_app, has_slash_basename. reflexivity.
Qed.

(** The path tried as a fallback has the note name as last component. *)
Lemma basename_potential_path (base_dir link : string) :
  Py.basename (potential_path base_dir link) = note_name link.
Proof.
  unfold potential_path, note_name.
  rewrite endswith_join_md.
  destruct (Py.endswith link md).
  - apply basename_join.
  - rewrite basename_app_no_slash by reflexivity.
    rewrite basename_join. reflexivity.
Qed.


End PathFacts.

(** ** Facts about [findall] *)

Section FindallFacts.

Lemma drop_length_startswith (s p : string) :
  Py.startswith s p = true ->
  String.length (Py.drop (String.length p) s) + String.length p = String.length s.
Proof.
  revert s. induction p as [|a p IH]; intros s H; simpl in *.
  - lia.
  - destruct s as [|b s]; [discriminate|].
    apply andb_true_iff in H as [_ H]. specialize (IH s H). simpl. lia.
Qed.

Lemma lazy_until_close_length (s group rest : string) :
  Re.lazy_until_close s = Some (group, rest) ->
  String.length rest + 2 + String.length group = String.length s.
Proof.
  revert group rest. induction s as [|c s IH]; intros group rest H.
  - simpl in H. discriminate.
  - cbn [Re.lazy_until_close] in H.
    destruct (Py.startswith (String c s) "]]") eqn:Hs.
    + injection H as <- <-.
      pose proof (drop_length_startswith _ _ Hs) as Hl.
      simpl in Hl |- *. lia.
    + destruct (Ascii.eqb c Py.newline); [discriminate|].
      destruct (Re.lazy_until_close s) as [[g r]|] eqn:Hr; [|discriminate].
      injection H as <- <-. specialize (IH g r eq_refl). simpl. lia.
Qed.

Lemma match_here_length (s group rest : string) :
  Re.match_here s = Some (group, rest) ->
  String.length rest + 4 + String.length group = String.length s.
Proof.
  unfold Re.match_here. destruct (Py.startswith s "[[") eqn:Hs; [|discriminate].
  intros H%lazy_until_close_length.
  pose proof (drop_length_startswith _ _ Hs) as Hl.
  change (String.length "[[") with 2 in Hl. lia.
Qed.

(** Any fuel above the length of the text gives the same matches. *)
Lemma findall_from_fuel (n m : nat) (s : string) :
  String.length s < n -> String.length s < m ->
  Re.findall_from n s = Re.findall_from m s.
Proof.
  revert m s. induction n as [|n IH]; intros m s Hn Hm; [lia|].
  destruct m as [|m]; [lia|]. simpl.
  destruct (Re.match_here s) as [[g r]|] eqn:Hmatch.
  - apply match_here_length in Hmatch. f_equal. apply IH; lia.
  - destruct s as [|c s]; [reflexivity|]. simpl in Hn, Hm. apply IH; lia.
Qed.

(** The scan, without fuel. *)
Lemma findall_unfold (s : string) :
  Re.findall s =
  match Re.match_here s with
  | Some (group, rest) => group :: Re.findall rest
  | None =>
      match s with
      | EmptyString => []
      | String _ s' => Re.findall s'
      end
  end.
Proof.
  unfold Re.findall at 1. cbn [Re.findall_from].
  destruct (Re.match_here s) as [[g r]|] eqn:Hmatch.
  - apply match_here_length in Hmatch. f_equal.
    apply findall_from_fuel; lia.
  - destruct s as [|c s]; [reflexivity|].
    apply findall_from_fuel; simpl; lia.
Qed.

End FindallFacts.

(** ** Resolution of a link to a file *)

Section ResolutionFacts.

Variable fs : FileSystem.
Variable base_dir : string.

Lemma name_in_spec (name : string) (files : list string) :
  name_in name files = true <-> name ∈ files.
Proof.
  unfold name_in. rewrite existsb_exists. split.
  - intros (x & Hx & ->%String.eqb_eq). apply list_elem_of_In, Hx.
  - intros H. exists name. split; [apply list_elem_of_In, H | apply String.eqb_refl].
Qed.

(** What [search_walk] returns, in terms of the sequence of the walk. *)
Lemma search_walk_some (name : string)
    (walk : list (string * list string * list string)) (p : string) :
  search_walk name walk = Some p <->
  exists before root dirs files after,
    walk = before ++ (root, dirs, files) :: after /\
    Forall (fun t => name ∉ t.2) before /\
    name ∈ files /\
    p = Py.join root name.
Proof.
  induction walk as [|[[r d] f] walk IH]; simpl.
  - split; [discriminate|].
    intros (before & ? & ? & ? & ? & H & _). destruct before; discriminate.
  - destruct (name_in name f) eqn:Hin.
    + apply name_in_spec in Hin. split.
      * intros [= <-]. exists [], r, d, f, walk. repeat split; auto.
      * intros (before & r' & d' & f' & after & Hw & Hb & Hf & ->).
        destruct before as [|t before]; simpl in Hw.
        -- injection Hw as -> -> -> ->. reflexivity.
        -- injection Hw as <- ->. apply Forall_cons in Hb as [Hb _].
           simpl in Hb. contradiction.
    + assert (Hnot : name ∉ f).
      { intros H%name_in_spec. congruence. }
      rewrite IH. split.
      * intros (before & r' & d' & f' & after & -> & Hb & Hf & ->).
        exists ((r, d, f) :: before), r', d', f', after.
        repeat split; auto.
      * intros (before & r' & d' & f' & after & Hw & Hb & Hf & ->).
        destruct before as [|t before]; simpl in Hw.
        -- injection Hw as -> -> -> ->. contradiction.
        -- injection Hw as <- ->. apply Forall_cons in Hb as [_ Hb].
           exists before, r', d', f', after. repeat split; auto.
Qed.

Lemma search_walk_none (name : string)
    (walk : list (string * list string * list string)) :
  search_walk name walk = None <-> Forall (fun t => name ∉ t.2) walk.
Proof.
  induction walk as [|[[r d] f] walk IH]; simpl.
  - split; auto.
  - destruct (name_in name f) eqn:Hin.
    + apply name_in_spec in Hin. split; [discriminate|].
      intros [H _]%Forall_cons. simpl in H. contradiction.
    + rewrite IH. split.
      * intros H. apply Forall_cons. split; [|exact H].
        simpl. intros H'%name_in_spec. congruence.
      * intros [_ H]%Forall_cons. exact H.
Qed.

Lemma search_walk_names (name : string)
    (walk : list (string * list string * list string)) (p : string) :
  search_walk name walk = Some p -> name ∈ walk_names walk.
Proof.
  intros (before & r & d & f & after & -> & _ & Hf & _)%search_walk_some.
  unfold walk_names. rewrite map_app, concat_app. simpl.
  apply elem_of_app. right. apply elem_of_app. left. exact Hf.
Qed.

(** The first directory of the walk that lists the name decides. *)
Lemma find_note_first_listed (link : string)
    (before after : list (string * list string * list string))
    (root : string) (dirs files : list string) :
  os_walk fs base_dir = before ++ (root, dirs, files) :: after ->
  Forall (fun t => note_name link ∉ t.2) before ->
  note_name link ∈ files ->
  find_note fs base_dir link = Some (Py.join root (note_name link)).
Proof.
  intros Hw Hb Hf. unfold find_note.
  assert (Hs : search_walk (note_name link) (os_walk fs base_dir)
               = Some (Py.join root (note_name link))).
  { apply search_walk_some. exists before, root, dirs, files, after. auto. }
  rewrite Hs. reflexivity.
Qed.

(** The file found carries the note name. *)
Lemma find_note_basename (link p : string) :
  find_note fs base_dir link = Some p -> Py.basename p = note_name link.
Proof.
  unfold find_note.
  destruct (search_walk _ _) as [q|] eqn:Hs.
  - intros [= <-].
    apply search_walk_some in Hs as (_ & r & _ & _ & _ & _ & _ & _ & ->).
    rewrite basename_join. apply basename_no_slash, has_slash_note_name.
  - destruct (os_path_exists fs _); [|discriminate].
    intros [= <-]. apply basename_potential_path.
Qed.

Lemma note_name_not_empty (link : string) : note_name link <> "".
Proof.
  intros H. pose proof (f_equal (fun s => Py.endswith s md) H) as He.
  simpl in He. unfold note_name in *.
  destruct (Py.endswith link md) eqn:Hl.
  - rewrite endswith_basename_md, Hl in He. discriminate He.
  - rewrite endswith_app in He by apply endswith_refl. discriminate He.
Qed.

Lemma find_note_not_empty (link p : string) :
  find_note fs base_dir link = Some p -> p <> "".
Proof.
  intros Hfind%find_note_basename ->. simpl in Hfind.
  symmetry in Hfind. exact (note_name_not_empty link Hfind).
Qed.

(** In a finite vault the notes that can be found have finitely many
    names. *)
Lemma find_note_bounded (names : list string) (link p : string) :
  finite_vault fs names ->
  find_note fs base_dir link = Some p ->
  note_name link ∈ walk_names (os_walk fs base_dir) ++ names.
Proof.
  intros Hfin. unfold find_note.
  destruct (search_walk _ _) as [q|] eqn:Hs.
  - intros _. apply elem_of_app. left. eapply search_walk_names, Hs.
  - destruct (os_path_exists fs _) eqn:He; [|discriminate].
    intros _. apply elem_of_app. right.
    rewrite <- (basename_potential_path base_dir). apply Hfin, He.
Qed.

End ResolutionFacts.

(** ** The loop *)

Section LoopFacts.

Variable fs : FileSystem.
Variable base_dir : string.

(** Every iteration is one of the four outcomes. *)
Lemma loop_body_visit (st : state) (link : string) (rest : list string) :
  visit fs base_dir st link rest (loop_body fs base_dir st link rest).
Proof.
  unfold loop_body.
  destruct (decide (note_name link ∈ visited_notes st)) as [Hin|Hnot].
  - apply visit_seen, Hin.
  - destruct (find_note fs base_dir link) as [p|] eqn:Hfind.
    + destruct (open_read fs p) as [c|e] eqn:Hread.
      * eapply visit_read; eassumption.
      * eapply visit_unreadable; eassumption.
    + apply visit_missing; assumption.
Qed.

Lemma step_none (st : state) : step fs base_dir st = None <-> notes_to_visit st = [].
Proof. unfold step. destruct (notes_to_visit st); split; congruence. Qed.

Lemma step_some (st st' : state) :
  step fs base_dir st = Some st' <->
  exists link rest,
    notes_to_visit st = link :: rest /\ st' = loop_body fs base_dir st link rest.
Proof.
  unfold step. destruct (notes_to_visit st) as [|l q]; split.
  - discriminate.
  - intros (? & ? & ? & _). discriminate.
  - intros [= <-]. eauto.
  - intros (? & ? & [= <- <-] & ->). reflexivity.
Qed.

(** The loop leaves only with an empty queue. *)
Lemma run_exit (n : nat) (st final : state) :
  run fs base_dir n st = Some final -> notes_to_visit final = [].
Proof.
  revert st. induction n as [|n IH]; intros st; simpl.
  - destruct (step fs base_dir st) eqn:Hs; [discriminate|].
    intros [= <-]. apply step_none, Hs.
  - destruct (step fs base_dir st) eqn:Hs; [apply IH|].
    intros [= <-]. apply step_none, Hs.
Qed.

(** More fuel does not change the result. *)
Lemma run_more_fuel (n m : nat) (st final : state) :
  run fs base_dir n st = Some final -> n <= m ->
  run fs base_dir m st = Some final.
Proof.
  revert m st. induction n as [|n IH]; intros m st; simpl.
  - destruct (step fs base_dir st) eqn:Hs; [discriminate|].
    intros [= <-] _. destruct m; simpl; rewrite Hs; reflexivity.
  - destruct (step fs base_dir st) eqn:Hs.
    + intros H Hle. destruct m as [|m]; [lia|]. simpl. rewrite Hs.
      apply IH; [exact H | lia].
    + intros [= <-] _. destruct m; simpl; rewrite Hs; reflexivity.
Qed.

Lemma run_deterministic (n m : nat) (st f1 f2 : state) :
  run fs base_dir n st = Some f1 -> run fs base_dir m st = Some f2 -> f1 = f2.
Proof.
  intros H1 H2.
  apply (run_more_fuel n (n + m)) in H1; [|lia].
  apply (run_more_fuel m (n + m)) in H2; [|lia].
  congruence.
Qed.

(** The run as a sequence of iterations: [run] returns [final] exactly
    when some number of iterations leads to [final] and the queue is
    empty there (it is not empty before, or [iterate] would stop). *)
Lemma run_iterate (n : nat) (st final : state) :
  run fs base_dir n st = Some final <->
  exists k, k <= n /\ iterate fs base_dir k st = Some final /\
            notes_to_visit final = [].
Proof.
  revert st. induction n as [|n IH]; intros st; simpl.
  - destruct (step fs base_dir st) eqn:Hs; split.
    + discriminate.
    + intros (k & Hk & Hit & Hq). assert (k = 0) as -> by lia.
      simpl in Hit. injection Hit as ->. apply step_none in Hq. congruence.
    + intros [= <-]. exists 0.
      split; [lia|]. split; [reflexivity | apply step_none, Hs].
    + intros (k & Hk & Hit & Hq). assert (k = 0) as -> by lia.
      simpl in Hit. exact Hit.
  - destruct (step fs base_dir st) as [st'|] eqn:Hs; split.
    + intros (k & Hk & Hit & Hq)%IH. exists (S k). simpl. rewrite Hs.
      split; [lia|]. split; assumption.
    + intros (k & Hk & Hit & Hq). apply IH. destruct k as [|k]; simpl in Hit.
      * injection Hit as ->. apply step_none in Hq. congruence.
      * rewrite Hs in Hit. exists k. split; [lia|]. split; assumption.
    + intros [= <-]. exists 0.
      split; [lia|]. split; [reflexivity | apply step_none, Hs].
    + intros (k & Hk & Hit & Hq). destruct k as [|k]; simpl in Hit.
      * exact Hit.
      * rewrite Hs in Hit. discriminate.
Qed.

(** While iterations remain, the queue is not empty. *)
Lemma iterate_queue (j k : nat) (st mid final : state) :
  iterate fs base_dir k st = Some final -> j < k ->
  iterate fs base_dir j st = Some mid -> notes_to_visit mid <> [].
Proof.
  revert k st. induction j as [|j IH]; intros k st Hk Hlt Hj.
  - simpl in Hj. injection Hj as <-. destruct k as [|k]; [lia|].
    simpl in Hk. intros Hq%step_none. rewrite Hq in Hk. discriminate.
  - destruct k as [|k]; [lia|]. simpl in Hk, Hj.
    destruct (step fs base_dir st) as [st'|]; [|discriminate].
    apply (IH k st'); auto. lia.
Qed.

(** A property kept by every iteration holds at the exit. *)
Lemma run_invariant (P : state -> Prop) :
  (forall st link rest,
      P st -> notes_to_visit st = link :: rest ->
      P (loop_body fs base_dir st link rest)) ->
  forall n st final, P st -> run fs base_dir n st = Some final -> P final.
Proof.
  intros Hkeep n. induction n as [|n IH]; intros st final HP; simpl.
  - destruct (step fs base_dir st); [discriminate|]. intros [= <-]. exact HP.
  - destruct (step fs base_dir st) as [st'|] eqn:Hs.
    + apply step_some in Hs as (l & q & Hq & ->). apply IH. eapply Hkeep; eauto.
    + intros [= <-]. exact HP.
Qed.

End LoopFacts.

(** ** Termination *)

Section Termination.

Variable fs : FileSystem.
Variable base_dir : string.

(** [universe] bounds the names of the notes that can be found. *)
Variable universe : gset string.
Hypothesis find_note_universe :
  forall link p, find_note fs base_dir link = Some p -> note_name link ∈ universe.

Lemma run_step (n : nat) (st st' final : state) :
  step fs base_dir st = Some st' ->
  run fs base_dir n st' = Some final ->
  run fs base_dir (S n) st = Some final.
Proof. intros Hs Hr. simpl. rewrite Hs. exact Hr. Qed.

(** The names still to be visited decrease at every note read, and the
    queue at every other iteration. *)
Lemma run_terminates_measure (k : nat) :
  forall q vc v pr es,
    size (universe ∖ v) <= k ->
    exists n final,
      run fs base_dir n
        {| vault_content := vc; notes_to_visit := q; visited_notes := v;
           printed := pr; entries := es |} = Some final.
Proof.
  induction k as [k IHk] using lt_wf_ind.
  induction q as [|l q IHq]; intros vc v pr es Hsize.
  - exists 0. eexists. reflexivity.
  - set (st := {| vault_content := vc; notes_to_visit := l :: q;
                  visited_notes := v; printed := pr; entries := es |}).
    assert (Hstep : step fs base_dir st = Some (loop_body fs base_dir st l q))
      by reflexivity.
    pose proof (loop_body_visit fs base_dir st l q) as Hv.
    remember (loop_body fs base_dir st l q) as st' eqn:Hst'. clear Hst'.
    destruct Hv as [Hin | Hnot Hfind | p e Hnot Hfind Hread | p c Hnot Hfind Hread];
      simpl in *.
    + destruct (IHq vc v pr es Hsize) as (n & final & Hrun).
      exists (S n), final. eapply run_step; eauto.
    + destruct (IHq vc v (pr ++ [warning_line l]) es Hsize)
        as (n & final & Hrun).
      exists (S n), final. eapply run_step; eauto.
    + destruct (IHq vc v
                  (pr ++ [read_error_line p e])
                  es Hsize) as (n & final & Hrun).
      exists (S n), final. eapply run_step; eauto.
    + assert (Hlt : size (universe ∖ (v ∪ {[note_name l]})) < size (universe ∖ v)).
      { apply subset_size. apply find_note_universe in Hfind. set_solver. }
      assert (Hk : size (universe ∖ (v ∪ {[note_name l]})) < k) by lia.
      destruct (IHk _ Hk
                  (q ++ Re.findall c) (vc +:+ note_block p c) (v ∪ {[note_name l]}) pr
                  (es ++ [{| entry_name := note_name l; entry_path := p;
                             entry_content := c |}]) (le_n _))
        as (n & final & Hrun).
      exists (S n), final. eapply run_step; eauto.
Qed.

Lemma run_terminates (st : state) :
  exists n final, run fs base_dir n st = Some final.
Proof.
  destruct st as [vc q v pr es].
  apply (run_terminates_measure (size (universe ∖ v))). lia.
Qed.

End Termination.

(** In a finite vault the loop exits from every state. *)
Lemma finite_vault_terminates (fs : FileSystem) (base_dir : string)
    (names : list string) (st : state) :
  finite_vault fs names ->
  exists n final, run fs base_dir n st = Some final.
Proof.
  intros Hfin.
  apply (run_terminates fs base_dir
           (list_to_set (walk_names (os_walk fs base_dir) ++ names))).
  intros link p Hfind. apply elem_of_list_to_set.
  eapply find_note_bounded; eauto.
Qed.

(** ** What the loop preserves *)

Section Invariant.

Variable fs : FileSystem.
Variable base_dir : string.
Variable root : string.

Lemma render_snoc (es : list entry) (e : entry) :
  render (es ++ [e]) = render es +:+ note_block (entry_path e) (entry_content e).
Proof.
  induction es as [|e0 es IH].
  - change (render ([] ++ [e]))
      with (note_block (entry_path e) (entry_content e) +:+ "").
    apply append_nil_r.
  - change (render ((e0 :: es) ++ [e]))
      with (note_block (entry_path e0) (entry_content e0) +:+ render (es ++ [e])).
    change (render (e0 :: es))
      with (note_block (entry_path e0) (entry_content e0) +:+ render es).
    rewrite IH. symmetry. apply append_assoc.
Qed.

Lemma render_app (es1 es2 : list entry) :
  render (es1 ++ es2) = render es1 +:+ render es2.
Proof.
  induction es1 as [|e es1 IH]; [reflexivity|].
  change (render ((e :: es1) ++ es2))
    with (note_block (entry_path e) (entry_content e) +:+ render (es1 ++ es2)).
  change (render (e :: es1))
    with (note_block (entry_path e) (entry_content e) +:+ render es1).
  rewrite IH. symmetry. apply append_assoc.
Qed.

Lemma load_find_none (l : string) :
  find_note fs base_dir l = None -> load fs base_dir l = None.
Proof. unfold load. intros ->. reflexivity. Qed.

Lemma load_unreadable (l p e : string) :
  find_note fs base_dir l = Some p -> open_read fs p = ReadError e ->
  load fs base_dir l = None.
Proof. unfold load. intros -> ->. reflexivity. Qed.

Lemma load_read (l p c : string) :
  find_note fs base_dir l = Some p -> open_read fs p = ReadOk c ->
  load fs base_dir l = Some (p, c).
Proof. unfold load. intros -> ->. reflexivity. Qed.

Lemma load_some (l p c : string) :
  load fs base_dir l = Some (p, c) <->
  find_note fs base_dir l = Some p /\ open_read fs p = ReadOk c.
Proof.
  split; [|intros [? ?]; apply load_read; assumption].
  unfold load. destruct (find_note fs base_dir l) as [q|]; [|discriminate].
  destruct (open_read fs q) eqn:Hr; [|discriminate].
  intros [= <- <-]. auto.
Qed.

Lemma invariant_initial : invariant fs base_dir root (initial_state root).
Proof.
  split; simpl.
  - reflexivity.
  - intros name. set_solver.
  - constructor.
  - intros e H. inversion H.
  - intros l ->%list_elem_of_singleton. constructor.
  - left. apply list_elem_of_singleton. reflexivity.
  - intros e l H. inversion H.
Qed.

(** Once settled, a link stays settled when the visited set grows. *)
Lemma settled_mono (v v' : gset string) (l : string) :
  v ⊆ v' -> settled fs base_dir v l -> settled fs base_dir v' l.
Proof. intros Hsub [H|H]; [left; set_solver | right; exact H]. Qed.

(** Dropping the head of the queue keeps a queued-or-settled link so,
    provided the head itself is settled afterwards. *)
Lemma queued_or_settled_pop (v v' : gset string) (link l : string)
    (rest queue' : list string) :
  v ⊆ v' ->
  (forall x, x ∈ rest -> x ∈ queue') ->
  settled fs base_dir v' link ->
  l ∈ link :: rest \/ settled fs base_dir v l ->
  l ∈ queue' \/ settled fs base_dir v' l.
Proof.
  intros Hsub Hrest Hlink [[->|Hin]%elem_of_cons | Hs].
  - right. exact Hlink.
  - left. apply Hrest, Hin.
  - right. eapply settled_mono; eauto.
Qed.

Lemma invariant_loop_body (st : state) (link : string) (rest : list string) :
  invariant fs base_dir root st ->
  notes_to_visit st = link :: rest ->
  invariant fs base_dir root (loop_body fs base_dir st link rest).
Proof.
  intros [Hren Hvis Hnd Hent Hque Hroot Hlinks] Hq.
  rewrite Hq in Hque, Hroot, Hlinks.
  assert (Hreach : reachable fs base_dir root link).
  { apply Hque. left. }
  pose proof (loop_body_visit fs base_dir st link rest) as Hv.
  remember (loop_body fs base_dir st link rest) as st' eqn:Hst'. clear Hst'.
  destruct Hv as [Hin | Hnot Hfind | p e Hnot Hfind Hread | p c Hnot Hfind Hread].
  - (* already visited *)
    split; simpl; auto.
    + intros l Hl. apply Hque. right. exact Hl.
    + eapply queued_or_settled_pop; eauto. left. exact Hin.
    + intros e l He Hl. eapply queued_or_settled_pop; eauto. left. exact Hin.
  - (* not found *)
    split; simpl; auto.
    + intros l Hl. apply Hque. right. exact Hl.
    + eapply queued_or_settled_pop; eauto. right. apply load_find_none, Hfind.
    + intros e l He Hl. eapply queued_or_settled_pop; eauto.
      right. apply load_find_none, Hfind.
  - (* found, not read *)
    split; simpl; auto.
    + intros l Hl. apply Hque. right. exact Hl.
    + eapply queued_or_settled_pop; eauto. right. eapply load_unreadable; eauto.
    + intros e0 l He Hl. eapply queued_or_settled_pop; eauto.
      right. eapply load_unreadable; eauto.
  - (* read *)
    pose proof (load_read _ _ _ Hfind Hread) as Hload.
    split; simpl.
    + rewrite render_snoc, Hren. reflexivity.
    + intros name. rewrite map_app, elem_of_app, elem_of_union, Hvis.
      simpl. rewrite list_elem_of_singleton, elem_of_singleton. reflexivity.
    + rewrite map_app. simpl. apply NoDup_app. split; [exact Hnd|].
      split; [|apply NoDup_singleton].
      intros name Hname ->%list_elem_of_singleton. apply Hnot, Hvis, Hname.
    + intros e [He | ->%list_elem_of_singleton]%elem_of_app; [apply Hent, He|].
      exists link. simpl. auto.
    + intros l [Hl | Hl]%elem_of_app.
      * apply Hque. right. exact Hl.
      * eapply reach_link; eauto.
    + apply (queued_or_settled_pop (visited_notes st) _ link root rest);
        [set_solver | intros x Hx; apply elem_of_app; left; exact Hx
        | left; set_solver | exact Hroot].
    + intros e l [He | ->%list_elem_of_singleton]%elem_of_app Hl.
      * apply (queued_or_settled_pop (visited_notes st) _ link l rest);
          [set_solver | intros x Hx; apply elem_of_app; left; exact Hx
          | left; set_solver | eapply Hlinks; eauto].
      * left. simpl in Hl. apply elem_of_app. right. exact Hl.
Qed.

Lemma invariant_run (n : nat) (final : state) :
  run fs base_dir n (initial_state root) = Some final ->
  invariant fs base_dir root final.
Proof.
  apply (run_invariant fs base_dir (invariant fs base_dir root)).
  - apply invariant_loop_body.
  - apply invariant_initial.
Qed.

End Invariant.

(** ** Counting the blocks of a name *)

Section Counting.

Lemma entries_named_cons (name : string) (e : entry) (es : list entry) :
  entries_named name (e :: es) =
  (if decide (entry_name e = name) then 1 else 0) + entries_named name es.
Proof.
  unfold entries_named. rewrite filter_cons.
  destruct (decide (entry_name e = name)); reflexivity.
Qed.

Lemma entries_named_absent (name : string) (es : list entry) :
  name ∉ map entry_name es -> entries_named name es = 0.
Proof.
  induction es as [|e es IH]; intros Hnot; [reflexivity|].
  rewrite entries_named_cons. simpl in Hnot.
  apply not_elem_of_cons in Hnot as [Hne Hnot].
  destruct (decide (entry_name e = name)); [congruence|].
  rewrite IH by exact Hnot. reflexivity.
Qed.

Lemma entries_named_present (name : string) (es : list entry) :
  NoDup (map entry_name es) -> name ∈ map entry_name es ->
  entries_named name es = 1.
Proof.
  induction es as [|e es IH]; intros Hnd Hin; [inversion Hin|].
  rewrite entries_named_cons. simpl in Hnd, Hin.
  apply NoDup_cons in Hnd as [Hfresh Hnd].
  destruct (decide (entry_name e = name)) as [Heq|Hne].
  - rewrite entries_named_absent; [reflexivity|]. rewrite <- Heq. exact Hfresh.
  - apply elem_of_cons in Hin as [Heq|Hin]; [congruence|].
    rewrite IH by assumption. reflexivity.
Qed.

Lemma entries_named_le_1 (name : string) (es : list entry) :
  NoDup (map entry_name es) -> entries_named name es <= 1.
Proof.
  intros Hnd. destruct (decide (name ∈ map entry_name es)) as [Hin|Hnot].
  - rewrite entries_named_present by assumption. lia.
  - rewrite entries_named_absent by assumption. lia.
Qed.

Lemma entries_named_1 (name : string) (es : list entry) :
  NoDup (map entry_name es) ->
  entries_named name es = 1 <-> name ∈ map entry_name es.
Proof.
  intros Hnd. split; [|apply entries_named_present, Hnd].
  intros H1. destruct (decide (name ∈ map entry_name es)) as [Hin|Hnot]; [exact Hin|].
  rewrite entries_named_absent in H1 by assumption. discriminate.
Qed.

End Counting.

(** ** The corpus at the exit *)

Section Exit.

Variable fs : FileSystem.
Variable base_dir : string.
Variable root : string.
Variable final : state.
Hypothesis final_inv : invariant fs base_dir root final.
Hypothesis final_queue : notes_to_visit final = [].

(** The header of every block shows the name the block is recorded
    under. *)
Lemma exit_entry_basename (e : entry) :
  e ∈ entries final -> Py.basename (entry_path e) = entry_name e.
Proof.
  intros He. destruct (inv_entries _ _ _ _ final_inv e He) as (l & _ & <- & Hload).
  apply load_some in Hload as [Hfind _].
  eapply find_note_basename, Hfind.
Qed.

(** Every recorded name is the name of a reachable link that loads. *)
Lemma exit_sound (name : string) :
  name ∈ map entry_name (entries final) ->
  exists l, reachable fs base_dir root l /\ note_name l = name /\
            is_Some (load fs base_dir l).
Proof.
  intros (e & -> & He)%list_elem_of_fmap.
  destruct (inv_entries _ _ _ _ final_inv e He) as (l & Hr & Hn & Hload).
  exists l. rewrite Hload. eauto.
Qed.

(** On a link graph, every reachable link that loads has its name
    recorded, with the text it loads. *)
Lemma exit_complete (l : string) :
  link_graph fs base_dir root ->
  reachable fs base_dir root l ->
  forall p c, load fs base_dir l = Some (p, c) ->
  {| entry_name := note_name l; entry_path := p; entry_content := c |}
    ∈ entries final.
Proof.
  intros Hgraph Hreach.
  assert (Hsettled : forall x p c,
             reachable fs base_dir root x ->
             settled fs base_dir (visited_notes final) x ->
             load fs base_dir x = Some (p, c) ->
             {| entry_name := note_name x; entry_path := p; entry_content := c |}
               ∈ entries final).
  { intros x p c Hx [Hvis | Hnone] Hload; [|congruence].
    apply (inv_visited _ _ _ _ final_inv) in Hvis.
    apply list_elem_of_fmap in Hvis as (e & Hname & He).
    destruct (inv_entries _ _ _ _ final_inv e He) as (l0 & Hr0 & Hn0 & Hload0).
    rewrite (Hgraph x l0 Hx Hr0) in Hload by congruence.
    rewrite Hload0 in Hload. injection Hload as <- <-.
    rewrite Hname. destruct e; exact He. }
  induction Hreach as [|l p0 c0 l' Hreach IH Hload0 Hl']; intros p c Hload.
  - apply Hsettled; [constructor | | exact Hload].
    destruct (inv_root _ _ _ _ final_inv) as [Hin | Hs]; [|exact Hs].
    rewrite final_queue in Hin. inversion Hin.
  - apply Hsettled; [eapply reach_link; eauto | | exact Hload].
    specialize (IH p0 c0 Hload0).
    destruct (inv_links _ _ _ _ final_inv _ l' IH Hl') as [Hin | Hs]; [|exact Hs].
    rewrite final_queue in Hin. inversion Hin.
Qed.

End Exit.

(** ** Vaults whose files all lie in the walked tree *)

Section WalkedVault.

Variable fs : FileSystem.
Variable base_dir : string.

(** Every path that exists ends in a name that the walk lists. *)
Hypothesis all_walked :
  forall p, os_path_exists fs p = true ->
            Py.basename p ∈ walk_names (os_walk fs base_dir).

Lemma walk_names_search (name : string)
    (walk : list (string * list string * list string)) :
  name ∈ walk_names walk -> is_Some (search_walk name walk).
Proof.
  intros Hin. destruct (search_walk name walk) eqn:Hs; [eauto|].
  apply search_walk_none in Hs. exfalso.
  unfold walk_names in Hin.
  apply list_elem_of_In, in_concat in Hin as (f & Hf & Hname).
  apply in_map_iff in Hf as (t & <- & Ht).
  rewrite Forall_forall in Hs.
  apply (Hs t); apply list_elem_of_In; assumption.
Qed.

(** Then a link is resolved by its name alone. *)
Lemma walked_find_note (l : string) :
  find_note fs base_dir l = search_walk (note_name l) (os_walk fs base_dir).
Proof.
  unfold find_note.
  destruct (search_walk _ _) eqn:Hs; [reflexivity|].
  destruct (os_path_exists fs _) eqn:He; [|reflexivity].
  apply all_walked in He. rewrite basename_potential_path in He.
  apply walk_names_search in He as [p Hp]. congruence.
Qed.

Lemma walked_link_graph (root : string) : link_graph fs base_dir root.
Proof.
  intros l l' _ _ Hname. unfold load.
  rewrite !walked_find_note, Hname. reflexivity.
Qed.

Lemma walked_finite : finite_vault fs (walk_names (os_walk fs base_dir)).
Proof. exact all_walked. Qed.

End WalkedVault.

(** ** The example vaults *)

Lemma demo_all_walked (p : string) :
  os_path_exists Demo.fs p = true ->
  Py.basename p ∈ walk_names (os_walk Demo.fs (Py.dirname Demo.master)).
Proof.
  unfold Demo.fs at 1. cbn [os_path_exists]. intros H%name_in_spec.
  repeat (apply elem_of_cons in H as [-> | H]; [vm_compute; set_solver|]).
  inversion H.
Qed.

Lemma faulty_all_walked (p : string) :
  os_path_exists Faulty.fs p = true ->
  Py.basename p ∈ walk_names (os_walk Faulty.fs (Py.dirname Faulty.master)).
Proof.
  unfold Faulty.fs at 1. cbn [os_path_exists]. intros H%name_in_spec.
  repeat (apply elem_of_cons in H as [-> | H]; [vm_compute; set_solver|]).
  inversion H.
Qed.

(** ** The traversal without the links to visited notes *)

Section AcyclicFacts.

Variable fs : FileSystem.
Variable base_dir : string.

Lemma pruned_refl (v : gset string) (q : list string) : pruned v q q.
Proof. induction q; constructor; assumption. Qed.

Lemma pruned_mono (v v' : gset string) (q q' : list string) :
  v ⊆ v' -> pruned v q q' -> pruned v' q q'.
Proof.
  intros Hsub H. induction H; constructor; auto.
Qed.

Lemma pruned_app (v : gset string) (q1 q1' q2 q2' : list string) :
  pruned v q1 q1' -> pruned v q2 q2' -> pruned v (q1 ++ q2) (q1' ++ q2').
Proof.
  intros H1 H2. induction H1; simpl; [exact H2 | |]; constructor; assumption.
Qed.

Lemma pruned_empty (v : gset string) (q' : list string) :
  pruned v [] q' -> q' = [].
Proof. inversion 1. reflexivity. Qed.

Lemma pruned_forward_links (v : gset string) (links : list string) :
  pruned v links (forward_links v links).
Proof.
  unfold forward_links. induction links as [|l links IH]; [constructor|].
  rewrite filter_cons. destruct (decide (note_name l ∉ v)) as [Hnot|Hin].
  - apply pruned_keep, IH.
  - apply pruned_drop; [|exact IH]. apply dec_stable. exact Hin.
Qed.

(** A link kept by [forward_links] leads to a note not yet visited. *)
Lemma forward_links_fresh (v : gset string) (links : list string) (l : string) :
  l ∈ forward_links v links <-> l ∈ links /\ note_name l ∉ v.
Proof. unfold forward_links. rewrite list_elem_of_filter. tauto. Qed.

Lemma with_queue_same (st : state) : with_queue st (notes_to_visit st) = st.
Proof. destruct st; reflexivity. Qed.

(** One iteration on a kept link: both traversals do the same, and the
    queues stay related. *)
Lemma loop_body_acyclic_sim (st : state) (l : string) (q q' : list string) :
  pruned (visited_notes st) q q' ->
  exists q1,
    loop_body_acyclic fs base_dir (with_queue st (l :: q')) l q' =
      with_queue (loop_body fs base_dir st l q) q1 /\
    pruned (visited_notes (loop_body fs base_dir st l q))
           (notes_to_visit (loop_body fs base_dir st l q)) q1.
Proof.
  intros Hp. unfold loop_body_acyclic, loop_body, with_queue. simpl.
  destruct (decide (note_name l ∈ visited_notes st)); simpl; [eauto|].
  destruct (find_note fs base_dir l) as [p|]; simpl; [|eauto].
  destruct (open_read fs p) as [c|e]; simpl; [|eauto].
  eexists. split; [reflexivity|].
  apply pruned_app.
  - eapply pruned_mono; [|exact Hp]. set_solver.
  - apply pruned_forward_links.
Qed.

(** A dropped link would have been skipped. *)
Lemma loop_body_seen (st : state) (l : string) (q : list string) :
  note_name l ∈ visited_notes st ->
  loop_body fs base_dir st l q = with_queue st q.
Proof.
  intros Hin. unfold loop_body.
  destruct (decide (note_name l ∈ visited_notes st)); [reflexivity|contradiction].
Qed.

Lemma run_acyclic_simulates (n : nat) :
  forall st final q',
    run fs base_dir n st = Some final ->
    pruned (visited_notes st) (notes_to_visit st) q' ->
    exists m, run_acyclic fs base_dir m (with_queue st q') = Some final.
Proof.
  induction n as [|n IH]; intros st final q' Hrun Hp.
  - simpl in Hrun. destruct (step fs base_dir st) eqn:Hs; [discriminate|].
    injection Hrun as <-. apply step_none in Hs. rewrite Hs in Hp.
    apply pruned_empty in Hp as ->. exists 0. simpl.
    rewrite <- Hs at 1. rewrite with_queue_same. reflexivity.
  - simpl in Hrun. destruct (step fs base_dir st) as [st1|] eqn:Hs.
    + apply step_some in Hs as (l & q & Hq & ->). rewrite Hq in Hp.
      remember (l :: q) as lq eqn:Hlq.
      revert l q Hq Hlq Hrun.
      induction Hp as [|l0 q0 q0' Hp _|l0 q0 q0' Hin Hp IHp]; intros l q Hq Hlq Hrun.
      * discriminate.
      * injection Hlq as -> ->.
        destruct (loop_body_acyclic_sim st l q q0' Hp) as (q1 & Heq & Hp1).
        destruct (IH _ _ _ Hrun Hp1) as (m & Hm).
        exists (S m). simpl. rewrite Heq. exact Hm.
      * injection Hlq as -> ->.
        rewrite (loop_body_seen st l q Hin) in Hrun.
        apply (IH _ _ q0') in Hrun; [|exact Hp].
        destruct Hrun as (m & Hm). exists m.
        exact Hm.
    + injection Hrun as <-. apply step_none in Hs. rewrite Hs in Hp.
      apply pruned_empty in Hp as ->. exists 0. simpl.
      rewrite <- Hs at 1. rewrite with_queue_same. reflexivity.
Qed.

(** The links followed from the [i]-th note of the corpus, when those to
    the notes visited so far are removed, lead to later notes only: the
    graph that remains has no cycle. *)
Lemma forward_links_increase (es : list entry) (i j : nat) (ei ej : entry)
    (l : string) :
  es !! i = Some ei -> es !! j = Some ej ->
  l ∈ forward_links (list_to_set (map entry_name (take (S i) es)))
        (Re.findall (entry_content ei)) ->
  note_name l = entry_name ej ->
  i < j.
Proof.
  intros Hi Hj [_ Hfresh]%forward_links_fresh Hname.
  destruct (decide (i < j)) as [|Hge]; [assumption|]. exfalso.
  apply Hfresh. rewrite Hname. apply elem_of_list_to_set.
  apply list_elem_of_fmap. exists ej. split; [reflexivity|].
  apply list_elem_of_lookup. exists j.
  rewrite lookup_take_lt by lia. exact Hj.
Qed.

End AcyclicFacts.

(** ** The four outcomes as equations *)

Section Outcomes.

Variable fs : FileSystem.
Variable base_dir : string.

Lemma loop_body_missing (st : state) (l : string) (q : list string) :
  note_name l ∉ visited_notes st ->
  find_note fs base_dir l = None ->
  loop_body fs base_dir st l q =
  {| vault_content := vault_content st;
     notes_to_visit := q;
     visited_notes := visited_notes st;
     printed := printed st ++ [warning_line l];
     entries := entries st |}.
Proof.
  intros Hnot Hfind. unfold loop_body.
  destruct (decide (note_name l ∈ visited_notes st)); [contradiction|].
  rewrite Hfind. reflexivity.
Qed.

Lemma loop_body_unreadable (st : state) (l p e : string) (q : list string) :
  note_name l ∉ visited_notes st ->
  find_note fs base_dir l = Some p ->
  open_read fs p = ReadError e ->
  loop_body fs base_dir st l q =
  {| vault_content := vault_content st;
     notes_to_visit := q;
     visited_notes := visited_notes st;
     printed := printed st ++ [read_error_line p e];
     entries := entries st |}.
Proof.
  intros Hnot Hfind Hread. unfold loop_body.
  destruct (decide (note_name l ∈ visited_notes st)); [contradiction|].
  rewrite Hfind, Hread. reflexivity.
Qed.

Lemma loop_body_read (st : state) (l p c : string) (q : list string) :
  note_name l ∉ visited_notes st ->
  load fs base_dir l = Some (p, c) ->
  loop_body fs base_dir st l q =
  {| vault_content := vault_content st +:+ note_block p c;
     notes_to_visit := q ++ Re.findall c;
     visited_notes := visited_notes st ∪ {[ note_name l ]};
     printed := printed st;
     entries := entries st ++
       [{| entry_name := note_name l; entry_path := p; entry_content := c |}] |}.
Proof.
  intros Hnot [Hfind Hread]%load_some. unfold loop_body.
  destruct (decide (note_name l ∈ visited_notes st)); [contradiction|].
  rewrite Hfind, Hread. reflexivity.
Qed.

Lemma run_cons (n : nat) (st : state) (l : string) (q : list string) :
  notes_to_visit st = l :: q ->
  run fs base_dir (S n) st = run fs base_dir n (loop_body fs base_dir st l q).
Proof. intros Hq. simpl. unfold step. rewrite Hq. reflexivity. Qed.

(** The corpus only grows, at its end. *)
Lemma run_appends (n : nat) :
  forall st final,
    run fs base_dir n st = Some final ->
    exists es,
      entries final = entries st ++ es /\
      vault_content final = vault_content st +:+ render es.
Proof.
  assert (Hbody : forall st l q,
             exists es,
               entries (loop_body fs base_dir st l q) = entries st ++ es /\
               vault_content (loop_body fs base_dir st l q)
                 = vault_content st +:+ render es).
  { intros st l q. pose proof (loop_body_visit fs base_dir st l q) as Hv.
    remember (loop_body fs base_dir st l q) as st' eqn:Hst'. clear Hst'.
    destruct Hv as [? | ? ? | p e ? ? ? | p c ? ? ?]; simpl;
      try (exists []; split; [symmetry; apply app_nil_r | symmetry; apply append_nil_r]).
    exists [{| entry_name := note_name l; entry_path := p; entry_content := c |}].
    split; [reflexivity|].
    change (render [{| entry_name := note_name l; entry_path := p;
                       entry_content := c |}])
      with (note_block p c +:+ "").
    rewrite append_nil_r. reflexivity. }
  assert (Hexit : forall st : state,
             exists es, entries st = entries st ++ es /\
                        vault_content st = vault_content st +:+ render es).
  { intros st. exists []. split; [symmetry; apply app_nil_r | symmetry; apply append_nil_r]. }
  induction n as [|n IH]; intros st final; simpl.
  - destruct (step fs base_dir st); [discriminate|]. intros [= <-]. apply Hexit.
  - destruct (step fs base_dir st) as [st1|] eqn:Hs; [|intros [= <-]; apply Hexit].
    apply step_some in Hs as (l & q & Hq & ->).
    intros (es2 & He2 & Hv2)%IH.
    destruct (Hbody st l q) as (es1 & He1 & Hv1).
    exists (es1 ++ es2). rewrite He2, He1, Hv2, Hv1. split.
    + symmetry. apply app_assoc.
    + rewrite append_assoc, render_app. reflexivity.
Qed.

End Outcomes.

(** ** Queues of unresolved links *)

(** A queue of links that are all unresolved is emptied with one warning
    each. *)
Lemma run_all_missing (fs : FileSystem) (base_dir : string) (links : list string) :
  forall vc v pr es,
    (forall l, l ∈ links -> (note_name l ∉ v) /\ find_note fs base_dir l = None) ->
    run fs base_dir (length links)
      {| vault_content := vc; notes_to_visit := links; visited_notes := v;
         printed := pr; entries := es |}
    = Some {| vault_content := vc; notes_to_visit := []; visited_notes := v;
              printed := pr ++ map warning_line links; entries := es |}.
Proof.
  induction links as [|l links IH]; intros vc v pr es Hall.
  - simpl. rewrite app_nil_r. reflexivity.
  - destruct (Hall l ltac:(left)) as [Hnot Hfind].
    cbn [length]. rewrite (run_cons fs base_dir _ _ l links) by reflexivity.
    rewrite loop_body_missing by assumption. simpl.
    rewrite IH.
    + rewrite <- app_assoc. reflexivity.
    + intros l' Hl'. apply Hall. right. exact Hl'.
Qed.

(** ** The empty corpus *)

Lemma render_empty (es : list entry) : render es = "" <-> es = [].
Proof.
  split; [|intros ->; reflexivity].
  destruct es as [|e es]; [reflexivity|]. intros H. discriminate H.
Qed.

Lemma no_later_stage_prints (lines : list string) :
  forallb (fun ev => negb (is_later_stage ev)) (map EvPrint lines) = true.
Proof. induction lines as [|x lines IH]; [reflexivity|exact IH]. Qed.

(** A root that does not load leaves the loop after one iteration, with
    nothing in the corpus. *)
Lemma run_root_not_loaded (fs : FileSystem) (root : string) (n : nat) :
  load fs (Py.dirname root) root = None ->
  exists final,
    run fs (Py.dirname root) (S n) (initial_state root) = Some final /\
    vault_content final = "" /\ entries final = [].
Proof.
  intros Hload.
  rewrite (run_cons fs _ n _ root []) by reflexivity.
  pose proof (loop_body_visit fs (Py.dirname root) (initial_state root) root []) as Hv.
  remember (loop_body fs (Py.dirname root) (initial_state root) root []) as st' eqn:Hst'.
  clear Hst'.
  destruct Hv as [Hin | ? ? | p e ? ? ? | p c ? Hfind Hread].
  - simpl in Hin. set_solver.
  - eexists. split; [destruct n; reflexivity|]. split; reflexivity.
  - eexists. split; [destruct n; reflexivity|]. split; reflexivity.
  - rewrite (load_read _ _ _ _ _ Hfind Hread) in Hload. discriminate Hload.
Qed.

(** ** Extraction of the text of a response *)

Lemma extract_text_spec (api : Api) (result : json) :
  match expected_text result with
  | Some text => extract_text api result = Ok text
  | None =>
      extract_text api result =
        Ok (JStr ("Error: Could not extract valid content from API response. Full response: "
                  +:+ json_dumps api result)) \/
      exists e, extract_text api result = Raise e /\
                is_exception e = true /\ is_request_exception e = false
  end.
Proof.
  unfold extract_text, expected_text, bind, PyVal.contains, PyVal.getitem,
    PyVal.getitem0, PyVal.truthy.
  repeat first
    [ progress cbn
    | progress simplify_eq
    | match goal with
      | |- context [match ?x with _ => _ end] => is_var x; destruct x
      | |- context [PyVal.lookup_field ?k ?f] =>
          destruct (PyVal.lookup_field k f) eqn:?
      | |- context [existsb ?f ?l] => destruct (existsb f l)
      | |- context [PyVal.occurs_in ?k ?s] => destruct (PyVal.occurs_in k s)
      | |- context [String.eqb ?a ?b] => destruct (String.eqb a b)
      | |- context [Z.eqb ?a ?b] => destruct (Z.eqb a b)
      end
    | progress cbn ];
    try reflexivity; try (left; reflexivity);
    try (right; eexists; split; [reflexivity | split; reflexivity]).
Qed.

(** * The claims *)

(** C1.  In a finite vault the traversal returns a corpus that
    is the concatenation of its blocks; the header of each block shows the
    note name of the block; no note name has more than one block, however
    many links lead to it; and when the links form a graph on documents
    (acyclic or not), a note name has exactly one block if and only if it
    is the name of a reachable link whose file is found and read. *)
Theorem C1_one_block_per_loaded_note (fs : FileSystem) (master_note_path : string)
    (names : list string) :
  finite_vault fs names ->
  exists n final,
    traverse n fs master_note_path = Some final /\
    vault_content final = render (entries final) /\
    (forall e, e ∈ entries final -> Py.basename (entry_path e) = entry_name e) /\
    (forall name, entries_named name (entries final) <= 1) /\
    (link_graph fs (Py.dirname master_note_path) master_note_path ->
     forall name,
       entries_named name (entries final) = 1 <->
       exists l, reachable fs (Py.dirname master_note_path) master_note_path l /\
                 note_name l = name /\
                 is_Some (load fs (Py.dirname master_note_path) l)).
Proof.
  intros Hfin.
  destruct (finite_vault_terminates fs (Py.dirname master_note_path) names
              (initial_state master_note_path) Hfin) as (n & final & Hrun).
  exists n, final. split; [exact Hrun|].
  pose proof (invariant_run _ _ _ _ _ Hrun) as Hinv.
  pose proof (run_exit _ _ _ _ _ Hrun) as Hq.
  split; [apply (inv_render _ _ _ _ Hinv)|].
  split; [intros e; eapply exit_entry_basename; eauto|].
  split; [intros name; apply entries_named_le_1, (inv_nodup _ _ _ _ Hinv)|].
  intros Hgraph name.
  rewrite (entries_named_1 _ _ (inv_nodup _ _ _ _ Hinv)). split.
  - eapply exit_sound; eauto.
  - intros (l & Hreach & <- & [[p c] Hload]).
    apply list_elem_of_fmap.
    exists {| entry_name := note_name l; entry_path := p; entry_content := c |}.
    split; [reflexivity|]. eapply exit_complete; eauto.
Qed.

Lemma C1_witness :
  finite_vault Demo.fs (walk_names (os_walk Demo.fs (Py.dirname Demo.master))) /\
  exists n final,
    traverse n Demo.fs Demo.master = Some final /\
    entries_named "Skills.md" (entries final) = 1 /\
    entries_named "Missing.md" (entries final) <= 1.
Proof.
  split; [exact demo_all_walked|].
  destruct (C1_one_block_per_loaded_note Demo.fs Demo.master _ demo_all_walked)
    as (n & final & Hrun & _ & _ & Hle & Hone).
  exists n, final. split; [exact Hrun|]. split; [|apply Hle].
  apply Hone.
  - apply walked_link_graph, demo_all_walked.
  - exists "Skills". split; [|split; [reflexivity | eexists; vm_compute; reflexivity]].
    eapply (reach_link _ _ _ Demo.master).
    + apply reach_root.
    + vm_compute. reflexivity.
    + apply list_elem_of_In. vm_compute. auto.
Defined.

(** C1 does not extend to every reachable link that resolves to a file:
    for a note that is found but cannot be read, the link to it is
    reachable and resolves, and the corpus has no block for it. *)
Lemma C1_counterexample :
  exists final,
    traverse 4 Faulty.fs Faulty.master = Some final /\
    ~ one_entry_per_resolvable Faulty.fs Faulty.master final.
Proof.
  eexists. split; [vm_compute; reflexivity|].
  intros H. specialize (H "Skills").
  assert (Hreach : reachable Faulty.fs (Py.dirname Faulty.master)
                     Faulty.master "Skills").
  { eapply (reach_link _ _ _ Faulty.master).
    - apply reach_root.
    - vm_compute. reflexivity.
    - apply list_elem_of_In. vm_compute. auto. }
  specialize (H Hreach ltac:(eexists; vm_compute; reflexivity)).
  vm_compute in H. discriminate H.
Qed.

(** C2.  In a finite vault, cyclic or not, the loop exits after some number
    [k] of iterations, with an empty queue and never before the queue is
    empty; [parse_obsidian_vault] then returns the corpus, whatever fuel
    above [k] the model is given.  The breadth-first traversal with the
    same visited set that never queues a link to a visited note exits in the
    same state, so with the same corpus; the links it follows lead from
    each note of the corpus to later notes only, that is, the graph it
    walks has no cycle. *)
Theorem C2_terminates_as_on_acyclic_graph (fs : FileSystem)
    (master_note_path : string) (names : list string) :
  finite_vault fs names ->
  exists k final,
    iterate fs (Py.dirname master_note_path) k (initial_state master_note_path)
      = Some final /\
    notes_to_visit final = [] /\
    (forall j mid,
        j < k ->
        iterate fs (Py.dirname master_note_path) j (initial_state master_note_path)
          = Some mid ->
        notes_to_visit mid <> []) /\
    (forall n, k <= n ->
        parse_obsidian_vault n fs master_note_path = Some (vault_content final)) /\
    (exists m,
        run_acyclic fs (Py.dirname master_note_path) m (initial_state master_note_path)
          = Some final) /\
    (forall i j ei ej l,
        entries final !! i = Some ei -> entries final !! j = Some ej ->
        l ∈ forward_links (list_to_set (map entry_name (take (S i) (entries final))))
              (Re.findall (entry_content ei)) ->
        note_name l = entry_name ej ->
        i < j).
Proof.
  intros Hfin.
  destruct (finite_vault_terminates fs (Py.dirname master_note_path) names
              (initial_state master_note_path) Hfin) as (n & final & Hrun).
  pose proof Hrun as (k & Hk & Hit & Hq)%run_iterate.
  exists k, final. split; [exact Hit|]. split; [exact Hq|].
  split; [intros j mid Hj Hmid; exact (iterate_queue fs _ j k _ mid final Hit Hj Hmid)|].
  split.
  { intros n' Hn'. unfold parse_obsidian_vault, traverse.
    assert (Hrunk : run fs (Py.dirname master_note_path) k
                      (initial_state master_note_path) = Some final).
    { apply run_iterate. exists k. auto. }
    rewrite (run_more_fuel _ _ _ _ _ _ Hrunk Hn'). reflexivity. }
  split.
  { destruct (run_acyclic_simulates fs (Py.dirname master_note_path) n
                (initial_state master_note_path) final [master_note_path] Hrun
                (pruned_refl _ _)) as (m & Hm).
    exists m. exact Hm. }
  intros i j ei ej l. apply forward_links_increase.
Qed.

Lemma C2_witness :
  finite_vault Demo.fs (walk_names (os_walk Demo.fs (Py.dirname Demo.master))) /\
  exists k final,
    iterate Demo.fs (Py.dirname Demo.master) k (initial_state Demo.master)
      = Some final /\
    notes_to_visit final = [] /\
    (exists m,
        run_acyclic Demo.fs (Py.dirname Demo.master) m (initial_state Demo.master)
          = Some final).
Proof.
  split; [exact demo_all_walked|].
  destruct (C2_terminates_as_on_acyclic_graph Demo.fs Demo.master _ demo_all_walked)
    as (k & final & Hit & Hq & _ & _ & Hac & _).
  exists k, final. auto.
Defined.

Example demo_is_cyclic :
  reachable Demo.fs "vault" Demo.master "Skills" /\
  "Portfolio" ∈ Re.findall "Rocq [[Portfolio]]" /\
  load Demo.fs "vault" "Skills" = Some ("vault/notes/Skills.md", "Rocq [[Portfolio]]") /\
  note_name "Portfolio" = note_name Demo.master.
Proof.
  split; [|split; [apply list_elem_of_In; vm_compute; auto | split; reflexivity]].
  eapply (reach_link _ _ _ Demo.master).
  - apply reach_root.
  - vm_compute. reflexivity.
  - apply list_elem_of_In. vm_compute. auto.
Qed.

(** The text of a block, letter by letter: two newlines, the header line
    with the file name of the path read, two newlines, the content. *)
Lemma note_block_text (found_path content : string) :
  note_block found_path content
  = "

--- NOTE: " +:+ Py.basename found_path +:+ " ---

" +:+ content.
Proof. reflexivity. Qed.

(** C3.  Every iteration pops the link at the front of the queue; either
    the queue is left as the rest and the corpus unchanged, or the note is
    loaded, its links are appended to the back of the queue in the order
    [findall] lists them, and its block (the header line "--- NOTE: " with
    the file name, between blank lines, then the content) is appended to
    the end of the corpus.  For a root whose text has the links Skills and
    Projects, in this order, both loading a text without links, the three
    notes being distinct documents, the corpus is exactly three header
    blocks, in the order root, Skills, Projects. *)
Theorem C3_breadth_first_fifo :
  (forall (fs : FileSystem) (base_dir : string) (st : state) (link : string)
          (rest : list string),
      notes_to_visit st = link :: rest ->
      exists st',
        step fs base_dir st = Some st' /\
        ((notes_to_visit st' = rest /\ entries st' = entries st /\
          vault_content st' = vault_content st) \/
         (exists p c,
             (note_name link ∉ visited_notes st) /\
             load fs base_dir link = Some (p, c) /\
             notes_to_visit st' = rest ++ Re.findall c /\
             entries st' = (entries st ++
               [{| entry_name := note_name link; entry_path := p;
                   entry_content := c |}]) /\
             vault_content st' = vault_content st +:+ note_block p c /\
             vault_content st' = vault_content st +:+ "

--- NOTE: " +:+ note_name link +:+ " ---

" +:+ c))) /\
  (forall (fs : FileSystem) (root p0 c0 p1 c1 p2 c2 : string),
      load fs (Py.dirname root) root = Some (p0, c0) ->
      Re.findall c0 = ["Skills"; "Projects"] ->
      load fs (Py.dirname root) "Skills" = Some (p1, c1) ->
      Re.findall c1 = [] ->
      load fs (Py.dirname root) "Projects" = Some (p2, c2) ->
      Re.findall c2 = [] ->
      note_name root <> "Skills.md" ->
      note_name root <> "Projects.md" ->
      parse_obsidian_vault 3 fs root
        = Some (note_block p0 c0 +:+ note_block p1 c1 +:+ note_block p2 c2) /\
      parse_obsidian_vault 3 fs root
        = Some ("

--- NOTE: " +:+ note_name root +:+ " ---

" +:+ c0 +:+ "

--- NOTE: Skills.md ---

" +:+ c1 +:+ "

--- NOTE: Projects.md ---

" +:+ c2) /\
      Py.basename p0 = note_name root /\
      Py.basename p1 = "Skills.md" /\
      Py.basename p2 = "Projects.md").
Proof.
  split.
  - intros fs base_dir st link rest Hq.
    exists (loop_body fs base_dir st link rest).
    split; [unfold step; rewrite Hq; reflexivity|].
    pose proof (loop_body_visit fs base_dir st link rest) as Hv.
    remember (loop_body fs base_dir st link rest) as st' eqn:Hst'. clear Hst'.
    destruct Hv as [? | ? ? | p e ? ? ? | p c Hnot Hfind Hread]; simpl; auto.
    right. exists p, c. repeat split; auto; [apply load_read; assumption|].
    rewrite <- (find_note_basename _ _ _ _ Hfind). reflexivity.
  - intros fs root p0 c0 p1 c1 p2 c2 H0 Hl0 H1 Hl1 H2 Hl2 Hn1 Hn2.
    assert (Hblocks : parse_obsidian_vault 3 fs root
              = Some (note_block p0 c0 +:+ note_block p1 c1 +:+ note_block p2 c2)).
    { unfold parse_obsidian_vault, traverse, initial_state.
      rewrite (run_cons fs _ 2 _ root []) by reflexivity.
      rewrite (loop_body_read fs (Py.dirname root) _ root p0 c0 []);
        [| simpl; set_solver | exact H0].
      cbn [notes_to_visit vault_content visited_notes printed entries].
      rewrite Hl0. cbn [app].
      rewrite (run_cons fs _ 1 _ "Skills" ["Projects"]) by reflexivity.
      rewrite (loop_body_read fs (Py.dirname root) _ "Skills" p1 c1 ["Projects"]);
        [| simpl; change (note_name "Skills") with "Skills.md"; set_solver | exact H1].
      cbn [notes_to_visit vault_content visited_notes printed entries].
      rewrite Hl1. cbn [app].
      rewrite (run_cons fs _ 0 _ "Projects" []) by reflexivity.
      rewrite (loop_body_read fs (Py.dirname root) _ "Projects" p2 c2 []);
        [| simpl; change (note_name "Skills") with "Skills.md";
           change (note_name "Projects") with "Projects.md"; set_solver | exact H2].
      cbn [notes_to_visit vault_content visited_notes printed entries].
      rewrite Hl2. cbn [app run step notes_to_visit vault_content].
      rewrite !append_assoc. reflexivity. }
    apply load_some in H0 as [H0 _], H1 as [H1 _], H2 as [H2 _].
    apply find_note_basename in H0, H1, H2.
    change (note_name "Skills") with "Skills.md" in H1.
    change (note_name "Projects") with "Projects.md" in H2.
    split; [exact Hblocks|]. split; [|auto].
    rewrite Hblocks, !note_block_text, H0, H1, H2, !append_assoc. reflexivity.
Qed.

Lemma C3_witness :
  parse_obsidian_vault 3 TwoLinks.fs TwoLinks.master
  = Some "

--- NOTE: Portfolio.md ---

About me: [[Skills]], then [[Projects]].

--- NOTE: Skills.md ---

Rocq, OCaml

--- NOTE: Projects.md ---

A verified parser".
Proof.
  apply (proj1 (proj2 (proj2 C3_breadth_first_fifo TwoLinks.fs TwoLinks.master
                         "vault/Portfolio.md" "About me: [[Skills]], then [[Projects]]."
                         "vault/Skills.md" "Rocq, OCaml"
                         "vault/Projects.md" "A verified parser"
                         eq_refl eq_refl eq_refl eq_refl eq_refl eq_refl
                         ltac:(vm_compute; congruence) ltac:(vm_compute; congruence)))).
Defined.

(** C4.  The canonical name is computed from the last path
    component of the popped identifier (the text after its last slash):
    that component as it is when the identifier ends with .md, that
    component with .md appended otherwise.  For an identifier without a
    slash it is the identifier as it is, or the identifier with .md
    appended.  The name always ends with .md and has no slash. *)
Theorem C4_note_name_of_last_component (link : string) :
  note_name link = note_name_as_specified (Py.basename link) /\
  (Py.endswith link md = true -> note_name link = Py.basename link) /\
  (Py.endswith link md = false -> note_name link = Py.basename link +:+ md) /\
  (Py.has_slash link = false -> note_name link = note_name_as_specified link) /\
  Py.endswith (note_name link) md = true /\
  Py.has_slash (note_name link) = false.
Proof.
  assert (Hspec : note_name link = note_name_as_specified (Py.basename link)).
  { unfold note_name, note_name_as_specified.
    rewrite endswith_basename_md. reflexivity. }
  split; [exact Hspec|].
  split; [unfold note_name; intros ->; reflexivity|].
  split; [unfold note_name; intros ->; reflexivity|].
  split; [intros Hs; rewrite Hspec, (basename_no_slash _ Hs); reflexivity|].
  split; [|apply has_slash_note_name].
  unfold note_name. destruct (Py.endswith link md) eqn:He.
  - rewrite endswith_basename_md. exact He.
  - apply endswith_app, endswith_refl.
Qed.

Lemma C4_witness :
  note_name "Skills.md" = "Skills.md" /\
  note_name "Skills" = "Skills.md" /\
  note_name "vault/notes/Skills" = "Skills.md".
Proof.
  split; [|split].
  - apply (proj1 (proj2 (C4_note_name_of_last_component "Skills.md"))). reflexivity.
  - apply (proj1 (proj2 (proj2 (C4_note_name_of_last_component "Skills")))).
    reflexivity.
  - apply (proj1 (proj2 (proj2 (C4_note_name_of_last_component "vault/notes/Skills")))).
    reflexivity.
Defined.

(** C4 does not hold with the identifier itself in place of its last
    component: an identifier with a directory part that ends with .md is
    not used as it is. *)
Lemma C4_counterexample :
  Py.endswith "vault/Portfolio.md" md = true /\
  note_name "vault/Portfolio.md" = "Portfolio.md" /\
  note_name "vault/Portfolio.md" <> note_name_as_specified "vault/Portfolio.md".
Proof. repeat split; vm_compute; congruence. Qed.




(** C6.  When the link at the front of the queue is not yet visited and
    cannot be resolved, the iteration prints the line "Warning: Could not
    find linked note: " followed by the link, and only drops the link from
    the queue: the corpus, the visited set and the rest of the queue are as
    before.  In a finite vault, a root that is found and read
    has its block first in the corpus returned, whatever its links are; and
    when none of its links resolves, the corpus is its block alone, with one
    warning printed for each link. *)
Theorem C6_unresolved_link_is_dropped :
  (forall (fs : FileSystem) (base_dir : string) (st : state) (link : string)
          (rest : list string),
      notes_to_visit st = link :: rest ->
      note_name link ∉ visited_notes st ->
      find_note fs base_dir link = None ->
      step fs base_dir st =
        Some {| vault_content := vault_content st;
                notes_to_visit := rest;
                visited_notes := visited_notes st;
                printed := printed st
                           ++ ["Warning: Could not find linked note: " +:+ link];
                entries := entries st |}) /\
  (forall (fs : FileSystem) (root : string) (names : list string) (p0 c0 : string),
      finite_vault fs names ->
      load fs (Py.dirname root) root = Some (p0, c0) ->
      exists n final es,
        traverse n fs root = Some final /\
        entries final =
          {| entry_name := note_name root; entry_path := p0; entry_content := c0 |}
          :: es /\
        vault_content final = note_block p0 c0 +:+ render es /\
        vault_content final = "

--- NOTE: " +:+ note_name root +:+ " ---

" +:+ c0 +:+ render es) /\
  (forall (fs : FileSystem) (root p0 c0 : string),
      load fs (Py.dirname root) root = Some (p0, c0) ->
      (forall l, l ∈ Re.findall c0 ->
                 find_note fs (Py.dirname root) l = None /\
                 note_name l <> note_name root) ->
      exists final,
        traverse (S (length (Re.findall c0))) fs root = Some final /\
        vault_content final = note_block p0 c0 /\
        vault_content final = "

--- NOTE: " +:+ note_name root +:+ " ---

" +:+ c0 /\
        printed final = map (fun l => "Warning: Could not find linked note: " +:+ l)
                            (Re.findall c0)).
Proof.
  split; [|split].
  - intros fs base_dir st link rest Hq Hnot Hfind.
    unfold step. rewrite Hq. f_equal. apply loop_body_missing; assumption.
  - intros fs root names p0 c0 Hfin Hload.
    destruct (finite_vault_terminates fs (Py.dirname root) names
                (loop_body fs (Py.dirname root) (initial_state root) root []) Hfin)
      as (n & final & Hrun).
    pose proof (run_appends _ _ _ _ _ Hrun) as (es & Hes & Hvc).
    rewrite (loop_body_read fs _ _ root p0 c0 []) in Hes, Hvc;
      [| simpl; set_solver | exact Hload | simpl; set_solver | exact Hload].
    assert (Hbase : Py.basename p0 = note_name root).
    { apply load_some in Hload as [Hfind _]. eapply find_note_basename, Hfind. }
    exists (S n), final, es. split; [|split; [|split]].
    + unfold traverse. rewrite (run_cons fs _ n _ root []) by reflexivity. exact Hrun.
    + exact Hes.
    + exact Hvc.
    + rewrite Hvc. cbn [vault_content]. rewrite note_block_text, Hbase, !append_assoc.
      reflexivity.
  - intros fs root p0 c0 Hload Hall.
    assert (Hbase : Py.basename p0 = note_name root).
    { pose proof Hload as Hl. apply load_some in Hl as [Hfind _].
      eapply find_note_basename, Hfind. }
    eexists. split; [|split; [|split]].
    + unfold traverse. rewrite (run_cons fs _ _ _ root []) by reflexivity.
      rewrite (loop_body_read fs _ _ root p0 c0 []); [| simpl; set_solver | exact Hload].
      simpl. apply run_all_missing.
      intros l Hl. destruct (Hall l Hl) as [Hfind Hne]. split; [set_solver | exact Hfind].
    + reflexivity.
    + cbn [vault_content]. rewrite <- Hbase. reflexivity.
    + reflexivity.
Qed.

Lemma C6_witness :
  step Bare.fs ""
    {| vault_content := note_block "Portfolio.md" "Me. [[Skills]] [[Hobbies]]";
       notes_to_visit := ["Hobbies"; "Skills"];
       visited_notes := {["Portfolio.md"]};
       printed := [];
       entries := [] |}
  = Some {| vault_content := note_block "Portfolio.md" "Me. [[Skills]] [[Hobbies]]";
            notes_to_visit := ["Skills"];
            visited_notes := {["Portfolio.md"]};
            printed := ["Warning: Could not find linked note: Hobbies"];
            entries := [] |} /\
  (exists n final es,
     traverse n Faulty.fs Faulty.master = Some final /\
     vault_content final
     = "

--- NOTE: Portfolio.md ---

Me. [[Skills]] [[Missing]] [[Projects]]" +:+ render es).
Proof.
  split.
  - refine (proj1 C6_unresolved_link_is_dropped Bare.fs ""
              {| vault_content := note_block "Portfolio.md" "Me. [[Skills]] [[Hobbies]]";
                 notes_to_visit := ["Hobbies"; "Skills"];
                 visited_notes := {["Portfolio.md"]};
                 printed := [];
                 entries := [] |} "Hobbies" ["Skills"] eq_refl _ eq_refl).
    vm_compute. set_solver.
  - destruct (proj1 (proj2 C6_unresolved_link_is_dropped) Faulty.fs Faulty.master
                (walk_names (os_walk Faulty.fs (Py.dirname Faulty.master)))
                "vault/Portfolio.md" "Me. [[Skills]] [[Missing]] [[Projects]]"
                faulty_all_walked eq_refl) as (n & final & es & Hrun & _ & _ & Hvc).
    exists n, final, es. split; [exact Hrun | exact Hvc].
Defined.

(** C7.  When the link at the front of the queue is not yet visited, is
    resolved to a file and the read of the file fails, the iteration prints
    the line "An error occurred while reading ", the path, ": " and the
    text of the error, and only drops the link from the queue: nothing is appended
    to the corpus, the name is not added to the visited set and no link is
    queued.  In a finite vault the traversal still returns, and every block
    of the corpus returned holds the text read from a file whose read
    succeeded, so a file whose read fails has no block. *)
Theorem C7_read_failure_is_skipped :
  (forall (fs : FileSystem) (base_dir : string) (st : state) (link : string)
          (rest : list string) (found_path e : string),
      notes_to_visit st = link :: rest ->
      note_name link ∉ visited_notes st ->
      find_note fs base_dir link = Some found_path ->
      open_read fs found_path = ReadError e ->
      step fs base_dir st =
        Some {| vault_content := vault_content st;
                notes_to_visit := rest;
                visited_notes := visited_notes st;
                printed := printed st
                           ++ ["An error occurred while reading " +:+ found_path
                               +:+ ": " +:+ e];
                entries := entries st |}) /\
  (forall (fs : FileSystem) (root : string) (names : list string),
      finite_vault fs names ->
      exists n final,
        traverse n fs root = Some final /\
        vault_content final = render (entries final) /\
        forall en, en ∈ entries final ->
                   open_read fs (entry_path en) = ReadOk (entry_content en)).
Proof.
  split.
  - intros fs base_dir st link rest found_path e Hq Hnot Hfind Hread.
    unfold step. rewrite Hq. f_equal. eapply loop_body_unreadable; eassumption.
  - intros fs root names Hfin.
    destruct (finite_vault_terminates fs (Py.dirname root) names
                (initial_state root) Hfin) as (n & final & Hrun).
    exists n, final. split; [exact Hrun|].
    pose proof (invariant_run _ _ _ _ _ Hrun) as Hinv.
    split; [apply (inv_render _ _ _ _ Hinv)|].
    intros en Hen.
    destruct (inv_entries _ _ _ _ Hinv en Hen) as (l & _ & _ & Hload).
    apply load_some in Hload as [_ Hread]. exact Hread.
Qed.

Lemma C7_witness :
  step Faulty.fs "vault"
    {| vault_content :=
         note_block "vault/Portfolio.md" "Me. [[Skills]] [[Missing]] [[Projects]]";
       notes_to_visit := ["Skills"; "Missing"; "Projects"];
       visited_notes := {["Portfolio.md"]};
       printed := [];
       entries := [] |}
  = Some {| vault_content :=
              note_block "vault/Portfolio.md" "Me. [[Skills]] [[Missing]] [[Projects]]";
            notes_to_visit := ["Missing"; "Projects"];
            visited_notes := {["Portfolio.md"]};
            printed :=
              ["An error occurred while reading vault/Skills.md: Permission denied"];
            entries := [] |} /\
  (exists n final,
     traverse n Faulty.fs Faulty.master = Some final /\
     forall en, en ∈ entries final -> entry_path en <> "vault/Skills.md").
Proof.
  split.
  - refine (proj1 C7_read_failure_is_skipped Faulty.fs "vault"
              {| vault_content :=
                   note_block "vault/Portfolio.md"
                     "Me. [[Skills]] [[Missing]] [[Projects]]";
                 notes_to_visit := ["Skills"; "Missing"; "Projects"];
                 visited_notes := {["Portfolio.md"]};
                 printed := [];
                 entries := [] |} "Skills" ["Missing"; "Projects"]
              "vault/Skills.md" "Permission denied" eq_refl _ eq_refl eq_refl).
    vm_compute. set_solver.
  - destruct (proj2 C7_read_failure_is_skipped Faulty.fs Faulty.master
                (walk_names (os_walk Faulty.fs (Py.dirname Faulty.master)))
                faulty_all_walked) as (n & final & Hrun & _ & Hread).
    exists n, final. split; [exact Hrun|].
    intros en Hen Hpath. specialize (Hread en Hen). rewrite Hpath in Hread.
    discriminate Hread.
Defined.

Example faulty_run :
  exists final,
    traverse 4 Faulty.fs Faulty.master = Some final /\
    vault_content final
    = note_block "vault/Portfolio.md" "Me. [[Skills]] [[Missing]] [[Projects]]"
      +:+ note_block "vault/Projects.md" "Proofs" /\
    printed final = [read_error_line "vault/Skills.md" "Permission denied";
                     warning_line "Missing"].
Proof. eexists. split; [vm_compute; reflexivity|]. split; reflexivity. Qed.

(** C10.  The path given for the root is only put in the queue; it is
    resolved like any link, by its note name in the walk of its directory.
    When the first directory of the walk that lists this name is [root],
    the first iteration reads the file of that name in [root], and its text
    is the first block of the corpus, whether or not that file is the one
    at the path given. *)
Theorem C10_root_resolved_by_name (fs : FileSystem) (master_note_path : string)
    (before after : list (string * list string * list string))
    (root : string) (dirs files : list string) (content : string) :
  os_walk fs (Py.dirname master_note_path) = before ++ (root, dirs, files) :: after ->
  Forall (fun t => note_name master_note_path ∉ t.2) before ->
  note_name master_note_path ∈ files ->
  open_read fs (Py.join root (note_name master_note_path)) = ReadOk content ->
  notes_to_visit (initial_state master_note_path) = [master_note_path] /\
  find_note fs (Py.dirname master_note_path) master_note_path
    = Some (Py.join root (note_name master_note_path)) /\
  iterate fs (Py.dirname master_note_path) 1 (initial_state master_note_path)
    = Some {| vault_content :=
                note_block (Py.join root (note_name master_note_path)) content;
              notes_to_visit := Re.findall content;
              visited_notes := ∅ ∪ {[ note_name master_note_path ]};
              printed := [];
              entries := [{| entry_name := note_name master_note_path;
                             entry_path := Py.join root (note_name master_note_path);
                             entry_content := content |}] |} /\
  (forall n final,
      traverse n fs master_note_path = Some final ->
      exists es,
        entries final =
          {| entry_name := note_name master_note_path;
             entry_path := Py.join root (note_name master_note_path);
             entry_content := content |} :: es /\
        vault_content final =
          note_block (Py.join root (note_name master_note_path)) content
          +:+ render es).
Proof.
  intros Hwalk Hbefore Hfiles Hread.
  assert (Hfind : find_note fs (Py.dirname master_note_path) master_note_path
                  = Some (Py.join root (note_name master_note_path))).
  { eapply find_note_first_listed; eauto. }
  assert (Hload : load fs (Py.dirname master_note_path) master_note_path
                  = Some (Py.join root (note_name master_note_path), content)).
  { apply load_read; assumption. }
  assert (Hbody : loop_body fs (Py.dirname master_note_path)
                    (initial_state master_note_path) master_note_path []
                  = {| vault_content :=
                         note_block (Py.join root (note_name master_note_path)) content;
                       notes_to_visit := Re.findall content;
                       visited_notes := ∅ ∪ {[ note_name master_note_path ]};
                       printed := [];
                       entries := [{| entry_name := note_name master_note_path;
                                      entry_path :=
                                        Py.join root (note_name master_note_path);
                                      entry_content := content |}] |}).
  { rewrite (loop_body_read fs _ _ master_note_path
               (Py.join root (note_name master_note_path)) content []);
      [reflexivity | simpl; set_solver | exact Hload]. }
  split; [reflexivity|]. split; [exact Hfind|]. split.
  - simpl. unfold step. simpl. rewrite Hbody. reflexivity.
  - intros n final Hrun. unfold traverse in Hrun.
    destruct n as [|n]; [simpl in Hrun; discriminate Hrun|].
    rewrite (run_cons fs _ n _ master_note_path []) in Hrun by reflexivity.
    rewrite Hbody in Hrun.
    apply run_appends in Hrun as (es & Hes & Hvc). exists es. auto.
Qed.

Lemma C10_witness :
  exists st,
    iterate Shadowed.fs "vault" 1 (initial_state Shadowed.master) = Some st /\
    vault_content st = note_block "vault/archive/Portfolio.md" "Old portfolio" /\
    open_read Shadowed.fs Shadowed.master = ReadOk "Current portfolio [[Skills]]".
Proof.
  destruct (C10_root_resolved_by_name Shadowed.fs Shadowed.master
              [("vault", ["archive"], ["Portfolio"; "Skills.md"])] []
              "vault/archive" [] ["Portfolio.md"] "Old portfolio"
              eq_refl
              ltac:(repeat constructor; vm_compute; set_solver)
              ltac:(vm_compute; set_solver)
              eq_refl) as (_ & _ & Hit & _).
  eexists. split; [exact Hit|]. split; reflexivity.
Defined.

(** C8.  When [parse_obsidian_vault] returns the empty string, [main]
    prints that the portfolio could not be parsed and returns: the run ends
    there, with no exception, and nothing but lines printed, so the job
    description is not read, no request is sent and no file is written.
    The corpus returned is empty when the root is not found or not read,
    and more generally exactly when no block was recorded. *)
Theorem C8_empty_corpus_exits_early :
  (forall (fuel : nat) (w : World) (portfolio_path job_description_path : string),
      parse_obsidian_vault fuel (world_fs w) portfolio_path = Some "" ->
      exists evs,
        main fuel w portfolio_path job_description_path = Some (evs, None) /\
        last evs = Some (EvPrint "Could not parse portfolio. Exiting.") /\
        forallb (fun ev => negb (is_later_stage ev)) evs = true) /\
  (forall (fs : FileSystem) (root : string) (n : nat),
      1 <= n ->
      load fs (Py.dirname root) root = None ->
      parse_obsidian_vault n fs root = Some "") /\
  (forall (fs : FileSystem) (root : string) (n : nat) (final : state),
      traverse n fs root = Some final ->
      (vault_content final = "" <-> entries final = [])).
Proof.
  split; [|split].
  - intros fuel w portfolio_path job_description_path Hparse.
    unfold parse_obsidian_vault in Hparse. unfold main.
    destruct (traverse fuel (world_fs w) portfolio_path) as [st|]; [|discriminate].
    injection Hparse as Hvc. rewrite Hvc. cbn [String.eqb].
    eexists. split; [reflexivity|]. split.
    + apply last_snoc.
    + rewrite forallb_app. cbn [forallb is_later_stage negb andb].
      rewrite no_later_stage_prints. reflexivity.
  - intros fs root n Hn Hload. destruct n as [|n]; [lia|].
    destruct (run_root_not_loaded fs root n Hload) as (final & Hrun & Hvc & _).
    unfold parse_obsidian_vault, traverse. rewrite Hrun, Hvc. reflexivity.
  - intros fs root n final Hrun.
    rewrite (inv_render _ _ _ _ (invariant_run _ _ _ _ _ Hrun)).
    apply render_empty.
Qed.

Lemma C8_witness :
  main 1 NoVault.world "vault/Portfolio.md" "job.txt"
  = Some ([EvPrint "Step 1: Parsing your Obsidian portfolio...";
           EvPrint (warning_line "vault/Portfolio.md");
           EvPrint "Could not parse portfolio. Exiting."], None).
Proof.
  destruct (proj1 C8_empty_corpus_exits_early 1 NoVault.world
              "vault/Portfolio.md" "job.txt" eq_refl) as (evs & Hmain & _).
  rewrite Hmain. vm_compute in Hmain. injection Hmain as <-. reflexivity.
Defined.

(** C9.  [generate_resume_suggestions] sends exactly one request.  When the
    request fails in transport, or the status code is a client or server
    error (400-599, the codes for which [raise_for_status] raises), it
    returns the text "An error occurred with the API request: ...".  With
    any other status code, in 200-299 or not, the body decides: when it has
    the expected structure the function returns the text field of the
    first part of the first candidate; when the body lacks that structure
    it returns one of the two error texts; when the body is not JSON it
    returns an error text.  No exception of the [Exception] hierarchy
    leaves the function. *)
Theorem C9_request_errors_are_returned (api : Api)
    (portfolio_context job_description : string) :
  let req := build_request api (build_prompt portfolio_context job_description) in
  let returned := fst (generate_resume_suggestions api portfolio_context job_description) in
  snd (generate_resume_suggestions api portfolio_context job_description) = [req] /\
  (forall e,
      requests_post api req = Raise e -> is_request_exception e = true ->
      returned = Ok (JStr ("An error occurred with the API request: " +:+ exn_str api e))) /\
  (forall resp,
      requests_post api req = Ok resp ->
      (400 <= status_code resp < 600)%Z ->
      returned = Ok (JStr ("An error occurred with the API request: "
                           +:+ exn_str api (HTTPError (status_code resp))))) /\
  (forall resp result,
      requests_post api req = Ok resp ->
      ~ (400 <= status_code resp < 600)%Z ->
      response_json resp = Ok result ->
      match expected_text result with
      | Some text => returned = Ok text
      | None => exists msg, returned = Ok (JStr msg) /\ extraction_error api result msg
      end) /\
  (forall resp e,
      requests_post api req = Ok resp ->
      ~ (400 <= status_code resp < 600)%Z ->
      response_json resp = Raise e -> is_exception e = true ->
      exists msg, returned = Ok (JStr msg)) /\
  ((forall e, requests_post api req = Raise e -> is_exception e = true) ->
   (forall resp e, requests_post api req = Ok resp ->
                   response_json resp = Raise e -> is_exception e = true) ->
   exists v, returned = Ok v).
Proof.
  intros req returned. subst returned.
  unfold generate_resume_suggestions. fold req. cbn [fst snd].
  assert (Hstatus : forall resp,
             raise_for_status resp =
             if decide (400 <= status_code resp < 600)%Z
             then Raise (HTTPError (status_code resp)) else Ok tt).
  { intros resp. unfold raise_for_status.
    destruct (decide (400 <= status_code resp < 600)%Z) as [H|H].
    - destruct H as [H1%Z.leb_le H2%Z.ltb_lt]. rewrite H1, H2. reflexivity.
    - destruct (Z.leb 400 (status_code resp)) eqn:H1; [|reflexivity].
      destruct (Z.ltb (status_code resp) 600) eqn:H2; [|reflexivity].
      apply Z.leb_le in H1. apply Z.ltb_lt in H2. lia. }
  split; [reflexivity|].
  split.
  { intros e Hpost He. unfold try_body. rewrite Hpost. cbn [bind]. rewrite He.
    reflexivity. }
  split.
  { intros resp Hpost Hcode. unfold try_body. rewrite Hpost. cbn [bind].
    rewrite Hstatus. destruct (decide _); [|contradiction]. reflexivity. }
  split.
  { intros resp result Hpost Hcode Hjson. unfold try_body. rewrite Hpost. cbn [bind].
    rewrite Hstatus. destruct (decide _); [contradiction|]. cbn [bind].
    rewrite Hjson. cbn [bind].
    pose proof (extract_text_spec api result) as Hspec.
    destruct (expected_text result) as [text|].
    - rewrite Hspec. reflexivity.
    - destruct Hspec as [-> | (e & -> & He & Hre)].
      + eexists. split; [reflexivity|]. left. reflexivity.
      + rewrite Hre, He. eexists. split; [reflexivity|]. right. eauto. }
  split.
  { intros resp e Hpost Hcode Hjson He. unfold try_body. rewrite Hpost. cbn [bind].
    rewrite Hstatus. destruct (decide _); [contradiction|]. cbn [bind].
    rewrite Hjson. cbn [bind]. rewrite He.
    destruct (is_request_exception e); eauto. }
  intros Hpost_exc Hjson_exc. unfold try_body.
  destruct (requests_post api req) as [resp|e] eqn:Hpost; cbn [bind].
  - rewrite Hstatus. destruct (decide _); cbn [bind]; [cbn; eauto|].
    destruct (response_json resp) as [result|e] eqn:Hjson; cbn [bind].
    + pose proof (extract_text_spec api result) as Hspec.
      destruct (expected_text result) as [text|].
      * rewrite Hspec. eauto.
      * destruct Hspec as [-> | (e & -> & He & Hre)]; [eauto|].
        rewrite Hre, He. eauto.
    + rewrite (Hjson_exc resp e eq_refl Hjson).
      destruct (is_request_exception e); eauto.
  - rewrite (Hpost_exc e eq_refl). destruct (is_request_exception e); eauto.
Qed.

Lemma C9_witness :
  fst (generate_resume_suggestions Endpoint.failing "portfolio" "job")
  = Ok (JStr "An error occurred with the API request: 500 Server Error: Internal Server Error for url") /\
  fst (generate_resume_suggestions (Endpoint.answer Endpoint.good_body) "portfolio" "job")
  = Ok (JStr "Lead with Rocq.") /\
  fst (generate_resume_suggestions (Endpoint.answer Endpoint.no_text_body) "portfolio" "job")
  = Ok (JStr "An unexpected error occurred: 'text'").
Proof.
  split; [|split].
  - apply (proj1 (proj2 (proj2
             (C9_request_errors_are_returned Endpoint.failing "portfolio" "job")))
             {| status_code := 500; response_json := Raise (JSONDecodeError true) |}).
    + reflexivity.
    + simpl. lia.
  - apply (proj1 (proj2 (proj2 (proj2
             (C9_request_errors_are_returned (Endpoint.answer Endpoint.good_body)
                "portfolio" "job"))))
             {| status_code := 200; response_json := Ok Endpoint.good_body |}
             Endpoint.good_body).
    + reflexivity.
    + simpl. lia.
    + reflexivity.
  - reflexivity.
Defined.

(** C9 does not hold for every status code that is not a success: a
    response with a code outside 400-599, such as 302, 399 or 600, passes
    [raise_for_status], and with a body of the expected structure the
    function returns the text of the candidate, as for a 200, and no error
    text. *)
Lemma C9_counterexample :
  ~ (200 <= 302 < 300)%Z /\
  raise_for_status {| status_code := 302; response_json := Ok Endpoint.good_body |}
    = Ok tt /\
  fst (generate_resume_suggestions (Unusual.api 302) "portfolio" "job")
    = Ok (JStr "Lead with Rocq.") /\
  fst (generate_resume_suggestions (Unusual.api 399) "portfolio" "job")
    = Ok (JStr "Lead with Rocq.") /\
  fst (generate_resume_suggestions (Unusual.api 600) "portfolio" "job")
    = Ok (JStr "Lead with Rocq.") /\
  fst (generate_resume_suggestions (Endpoint.answer Endpoint.good_body) "portfolio" "job")
    = Ok (JStr "Lead with Rocq.").
Proof. split; [lia|]. repeat split. Qed.

(** * Further properties of the code *)

(** ** The traversal *)

(** A queue of links to visited notes is emptied without any other
    change. *)
Lemma run_all_seen (fs : FileSystem) (base_dir : string) (links : list string) :
  forall vc v pr es,
    (forall l, l ∈ links -> note_name l ∈ v) ->
    run fs base_dir (length links)
      {| vault_content := vc; notes_to_visit := links; visited_notes := v;
         printed := pr; entries := es |}
    = Some {| vault_content := vc; notes_to_visit := []; visited_notes := v;
              printed := pr; entries := es |}.
Proof.
  induction links as [|l links IH]; intros vc v pr es Hall; [reflexivity|].
  cbn [length]. rewrite (run_cons fs base_dir _ _ l links) by reflexivity.
  rewrite loop_body_seen by (apply Hall; left).
  apply IH. intros l' Hl'. apply Hall. right. exact Hl'.
Qed.

(** X1.  A root that is found and read, and whose links, if it has any,
    all carry the note name of the root itself, gives a corpus that is
    exactly its own block, and nothing is printed. *)
Theorem X1_root_alone (fs : FileSystem) (root p c : string) (n : nat) :
  load fs (Py.dirname root) root = Some (p, c) ->
  (forall l, l ∈ Re.findall c -> note_name l = note_name root) ->
  length (Re.findall c) < n ->
  parse_obsidian_vault n fs root = Some (note_block p c) /\
  exists final,
    traverse n fs root = Some final /\
    printed final = [] /\
    entries final =
      [{| entry_name := note_name root; entry_path := p; entry_content := c |}].
Proof.
  intros Hload Hself Hn.
  assert (Hrun : traverse (S (length (Re.findall c))) fs root
                 = Some {| vault_content := note_block p c;
                           notes_to_visit := [];
                           visited_notes := ∅ ∪ {[ note_name root ]};
                           printed := [];
                           entries := [{| entry_name := note_name root;
                                          entry_path := p;
                                          entry_content := c |}] |}).
  { unfold traverse. rewrite (run_cons fs _ _ _ root []) by reflexivity.
    rewrite (loop_body_read fs _ _ root p c []); [| simpl; set_solver | exact Hload].
    simpl. apply run_all_seen.
    intros l Hl. rewrite (Hself l Hl). set_solver. }
  apply (run_more_fuel _ _ _ n) in Hrun; [|lia].
  split.
  - unfold parse_obsidian_vault, traverse. rewrite Hrun. reflexivity.
  - eexists. split; [exact Hrun|]. split; reflexivity.
Qed.

Lemma X1_witness :
  parse_obsidian_vault 3 SelfLink.fs SelfLink.master
  = Some (note_block "vault/Portfolio.md"
            "Back to [[Portfolio]] and [[archive/Portfolio.md]].") /\
  parse_obsidian_vault 1 TwoLinks.fs "vault/Skills.md"
  = Some (note_block "vault/Skills.md" "Rocq, OCaml").
Proof.
  split.
  - apply (X1_root_alone SelfLink.fs SelfLink.master "vault/Portfolio.md"
             "Back to [[Portfolio]] and [[archive/Portfolio.md]]." 3).
    + reflexivity.
    + intros l Hl. apply list_elem_of_In in Hl. vm_compute in Hl.
      destruct Hl as [<- | [<- | []]]; reflexivity.
    + vm_compute. lia.
  - apply (X1_root_alone TwoLinks.fs "vault/Skills.md" "vault/Skills.md"
             "Rocq, OCaml" 1).
    + reflexivity.
    + intros l Hl. apply list_elem_of_In in Hl. vm_compute in Hl. destruct Hl.
    + vm_compute. lia.
Defined.

Lemma links_of_app (es1 es2 : list entry) :
  links_of (es1 ++ es2) = links_of es1 ++ links_of es2.
Proof. unfold links_of. rewrite map_app, concat_app. reflexivity. Qed.

Lemma links_of_cons (e : entry) (es : list entry) :
  links_of (e :: es) = Re.findall (entry_content e) ++ links_of es.
Proof. reflexivity. Qed.

(** Working through a front part of the queue: the rest of the queue is
    followed by the links of the notes read meanwhile. *)
Lemma iterate_front (fs : FileSystem) (base_dir : string) (q1 : list string) :
  forall q2 vc v pr es,
    exists st' added,
      iterate fs base_dir (length q1)
        {| vault_content := vc; notes_to_visit := q1 ++ q2; visited_notes := v;
           printed := pr; entries := es |} = Some st' /\
      entries st' = es ++ added /\
      notes_to_visit st' = q2 ++ links_of added /\
      (forall e, e ∈ added ->
         exists l, l ∈ q1 /\ note_name l = entry_name e /\
                   load fs base_dir l = Some (entry_path e, entry_content e)).
Proof.
  induction q1 as [|l q1 IH]; intros q2 vc v pr es.
  - eexists. exists []. split; [reflexivity|]. simpl.
    rewrite !app_nil_r. repeat split; auto. intros e He. inversion He.
  - simpl length. simpl iterate. unfold step. simpl notes_to_visit.
    set (st := {| vault_content := vc; notes_to_visit := l :: q1 ++ q2;
                  visited_notes := v; printed := pr; entries := es |}).
    pose proof (loop_body_visit fs base_dir st l (q1 ++ q2)) as Hv.
    remember (loop_body fs base_dir st l (q1 ++ q2)) as st1 eqn:Hst1. clear Hst1.
    destruct Hv as [? | ? ? | p e ? ? ? | p c Hnot Hfind Hread]; simpl in *.
    + destruct (IH q2 vc v pr es) as (st' & added & Hit & He & Hq & Hsrc).
      exists st', added. repeat split; auto.
      intros e Hin. destruct (Hsrc e Hin) as (l0 & ? & ?). exists l0. split; [right|]; auto.
    + destruct (IH q2 vc v (pr ++ [warning_line l]) es)
        as (st' & added & Hit & He & Hq & Hsrc).
      exists st', added. repeat split; auto.
      intros e Hin. destruct (Hsrc e Hin) as (l0 & ? & ?). exists l0. split; [right|]; auto.
    + destruct (IH q2 vc v (pr ++ [read_error_line p e]) es)
        as (st' & added & Hit & He & Hq & Hsrc).
      exists st', added. repeat split; auto.
      intros e0 Hin. destruct (Hsrc e0 Hin) as (l0 & ? & ?). exists l0. split; [right|]; auto.
    + rewrite <- app_assoc.
      destruct (IH (q2 ++ Re.findall c) (vc +:+ note_block p c) (v ∪ {[note_name l]}) pr
                  (es ++ [{| entry_name := note_name l; entry_path := p;
                             entry_content := c |}]))
        as (st' & added & Hit & He & Hq & Hsrc).
      exists st', ({| entry_name := note_name l; entry_path := p;
                      entry_content := c |} :: added).
      split; [exact Hit|]. split; [rewrite He, <- app_assoc; reflexivity|].
      split; [rewrite Hq, links_of_cons, <- app_assoc; reflexivity|].
      intros e [-> | Hin]%elem_of_cons.
      * exists l. split; [left|]. split; [reflexivity|]. apply load_read; assumption.
      * destruct (Hsrc e Hin) as (l0 & ? & ?). exists l0. split; [right|]; auto.
Qed.

(** X2.  The traversal proceeds level by level: from any state, after as
    many iterations as the queue is long, the queue is exactly the links
    found in the notes read during these iterations, in the order read; and
    each of these notes was loaded through a link of the old queue.  So all
    links at one distance from the root are handled before any link found
    behind them. *)
Theorem X2_level_by_level (fs : FileSystem) (base_dir : string) (st : state) :
  exists st' added,
    iterate fs base_dir (length (notes_to_visit st)) st = Some st' /\
    entries st' = entries st ++ added /\
    notes_to_visit st' = links_of added /\
    (forall e, e ∈ added ->
       exists l, l ∈ notes_to_visit st /\ note_name l = entry_name e /\
                 load fs base_dir l = Some (entry_path e, entry_content e)).
Proof.
  destruct st as [vc q v pr es]. simpl.
  destruct (iterate_front fs base_dir q [] vc v pr es)
    as (st' & added & Hit & He & Hq & Hsrc).
  rewrite app_nil_r in Hit. exists st', added. auto.
Qed.

(** The iterations made and the links still queued add up to the links
    that were queued plus those found meanwhile. *)
Lemma iterate_balance (fs : FileSystem) (base_dir : string) (k : nat) :
  forall st st',
    iterate fs base_dir k st = Some st' ->
    exists added,
      entries st' = entries st ++ added /\
      k + length (notes_to_visit st') =
      length (notes_to_visit st) + length (links_of added).
Proof.
  induction k as [|k IH]; intros st st' Hit.
  - injection Hit as <-. exists []. rewrite app_nil_r. simpl. split; [reflexivity|lia].
  - simpl in Hit. destruct (step fs base_dir st) as [st1|] eqn:Hs; [|discriminate].
    apply step_some in Hs as (l & q & Hq & ->).
    destruct (IH _ _ Hit) as (added & He & Hbal).
    pose proof (loop_body_visit fs base_dir st l q) as Hv.
    remember (loop_body fs base_dir st l q) as st1 eqn:Hst1. clear Hst1.
    rewrite Hq.
    destruct Hv as [? | ? ? | p e ? ? ? | p c Hnot Hfind Hread]; simpl in *;
      try (exists added; split; [exact He | lia]).
    exists ({| entry_name := note_name l; entry_path := p; entry_content := c |} :: added).
    split; [rewrite He, <- app_assoc; reflexivity|].
    rewrite links_of_cons. simpl. rewrite !length_app in *. lia.
Qed.

(** X3.  The loop makes exactly one iteration for the root and one for
    every occurrence of a link in the notes of the corpus: a run of [k]
    iterations that ends with an empty queue has [k] equal to one plus the
    number of these occurrences. *)
Theorem X3_one_iteration_per_link (fs : FileSystem) (master_note_path : string)
    (k : nat) (final : state) :
  iterate fs (Py.dirname master_note_path) k (initial_state master_note_path)
    = Some final ->
  notes_to_visit final = [] ->
  k = 1 + length (links_of (entries final)).
Proof.
  intros Hit Hq. destruct (iterate_balance _ _ _ _ _ Hit) as (added & He & Hbal).
  simpl in He, Hbal. rewrite Hq in Hbal. simpl in Hbal. rewrite He. lia.
Qed.

Lemma X3_witness :
  exists final,
    iterate Demo.fs "vault" 6 (initial_state Demo.master) = Some final /\
    length (links_of (entries final)) = 5.
Proof.
  eexists. split; [vm_compute; reflexivity|].
  pose proof (X3_one_iteration_per_link Demo.fs Demo.master 6 _
                ltac:(vm_compute; reflexivity) eq_refl) as H.
  lia.
Defined.

(** X4.  In a finite vault the corpus returned has at most as many blocks
    as there are names: the names listed in the walk of the directory of the
    root, plus the names of the other paths that exist. *)
Theorem X4_blocks_bounded (fs : FileSystem) (master_note_path : string)
    (names : list string) :
  finite_vault fs names ->
  exists n final,
    traverse n fs master_note_path = Some final /\
    length (entries final)
    <= length (walk_names (os_walk fs (Py.dirname master_note_path)) ++ names).
Proof.
  intros Hfin.
  destruct (finite_vault_terminates fs (Py.dirname master_note_path) names
              (initial_state master_note_path) Hfin) as (n & final & Hrun).
  exists n, final. split; [exact Hrun|].
  pose proof (invariant_run _ _ _ _ _ Hrun) as Hinv.
  rewrite <- (length_map entry_name).
  apply submseteq_length, NoDup_submseteq; [apply (inv_nodup _ _ _ _ Hinv)|].
  intros name (e & -> & He)%list_elem_of_fmap.
  destruct (inv_entries _ _ _ _ Hinv e He) as (l & _ & <- & Hload).
  apply load_some in Hload as [Hfind _].
  eapply find_note_bounded; eauto.
Qed.

Lemma X4_witness :
  finite_vault Demo.fs (walk_names (os_walk Demo.fs (Py.dirname Demo.master))) /\
  exists n final,
    traverse n Demo.fs Demo.master = Some final /\ length (entries final) <= 6.
Proof.
  split; [exact demo_all_walked|].
  destruct (X4_blocks_bounded Demo.fs Demo.master _ demo_all_walked)
    as (n & final & Hrun & Hlen).
  exists n, final. split; [exact Hrun | exact Hlen].
Defined.

(** ** Names and paths *)

Lemma endswith_note_name (link : string) : Py.endswith (note_name link) md = true.
Proof.
  unfold note_name. destruct (Py.endswith link md) eqn:He.
  - rewrite endswith_basename_md. exact He.
  - apply endswith_app, endswith_refl.
Qed.

(** X5.  Normalizing a name again changes nothing, and a link written
    with the extension names the same note as the link without it. *)
Theorem X5_note_name_stable (link : string) :
  note_name (note_name link) = note_name link /\
  (Py.endswith link md = false -> note_name (link +:+ md) = note_name link).
Proof.
  split.
  - unfold note_name at 1. rewrite endswith_note_name.
    apply basename_no_slash, has_slash_note_name.
  - intros He. unfold note_name. rewrite He.
    rewrite (endswith_app link md md) by apply endswith_refl.
    apply basename_app_no_slash. reflexivity.
Qed.

Lemma X5_witness : note_name ("notes/Skills" +:+ md) = note_name "notes/Skills".
Proof. apply (proj2 (X5_note_name_stable "notes/Skills")). reflexivity. Defined.

Lemma endswith_md_below (d l : string) :
  Py.endswith (d +:+ "/" +:+ l) md = Py.endswith l md.
Proof.
  destruct (Py.endswith l md) eqn:He.
  - apply endswith_app. apply (endswith_app "/"). exact He.
  - apply not_true_is_false. intros H%endswith_md_after_slash. congruence.
Qed.

Lemma basename_below (d l : string) :
  Py.has_slash l = false -> Py.basename (d +:+ "/" +:+ l) = l.
Proof.
  intros Hl. rewrite basename_app_slash by reflexivity.
  simpl. rewrite Hl. reflexivity.
Qed.

(** X6.  The directory part of a link plays no role in the search by
    name: a link [d/l] has the note name of [l], and when the walk lists
    that name both links are resolved to the same file. *)
Theorem X6_directory_part_ignored (fs : FileSystem) (base_dir d l : string) :
  Py.has_slash l = false ->
  note_name (d +:+ "/" +:+ l) = note_name l /\
  (note_name l ∈ walk_names (os_walk fs base_dir) ->
   find_note fs base_dir (d +:+ "/" +:+ l) = find_note fs base_dir l /\
   is_Some (find_note fs base_dir l)).
Proof.
  intros Hl.
  assert (Hname : note_name (d +:+ "/" +:+ l) = note_name l).
  { unfold note_name. rewrite endswith_md_below, basename_below by exact Hl.
    rewrite (basename_no_slash l Hl). reflexivity. }
  split; [exact Hname|].
  intros [p Hp]%walk_names_search. unfold find_note. rewrite Hname, Hp. eauto.
Qed.

Lemma X6_witness :
  find_note Demo.fs "vault" ("old/place" +:+ "/" +:+ "Skills")
  = find_note Demo.fs "vault" "Skills".
Proof.
  apply (X6_directory_part_ignored Demo.fs "vault" "old/place" "Skills").
  - reflexivity.
  - vm_compute. set_solver.
Defined.

Lemma rstrip_slash_all (s : string) :
  Py.all_slashes s = true -> Py.rstrip_slash s = "".
Proof. destruct s as [|c s]; [reflexivity|]. intros H. simpl in *. rewrite H. reflexivity. Qed.

(** A directory name that is not empty and does not end with a slash is
    what remains of it, followed by a slash, after the slash is stripped. *)
Lemma rstrip_slash_dir (d : string) :
  d <> "" -> Py.endswith d "/" = false ->
  Py.all_slashes (d +:+ "/") = false /\ Py.rstrip_slash (d +:+ "/") = d.
Proof.
  induction d as [|c d IH]; intros Hne He; [contradiction|].
  rewrite endswith_cons in He. apply orb_false_iff in He as [Hc He].
  destruct d as [|c' d'].
  - assert (Hs : Py.is_slash c = false).
    { destruct (Py.is_slash c) eqn:Hs; [|reflexivity].
      apply Ascii.eqb_eq in Hs. subst c. discriminate Hc. }
    simpl. rewrite Hs. auto.
  - destruct (IH ltac:(discriminate) He) as [Hall Hstrip].
    change ((String c (String c' d')) +:+ "/")
      with (String c (String c' d' +:+ "/")).
    split.
    + change (Py.all_slashes (String c (String c' d' +:+ "/")))
        with (Py.is_slash c && Py.all_slashes (String c' d' +:+ "/")).
      rewrite Hall. apply andb_false_r.
    + change (Py.rstrip_slash (String c (String c' d' +:+ "/")))
        with (if Py.is_slash c && Py.all_slashes (String c' d' +:+ "/")
              then "" else String c (Py.rstrip_slash (String c' d' +:+ "/"))).
      rewrite Hall, andb_false_r, Hstrip. reflexivity.
Qed.

Lemma head_of_app_slash (a b : string) :
  Py.has_slash b = true -> Py.head_of (a +:+ b) = a +:+ Py.head_of b.
Proof.
  intros Hb. induction a as [|c a IH]; simpl; [reflexivity|].
  rewrite has_slash_app, Hb, orb_true_r, IH. reflexivity.
Qed.

Lemma head_of_below (d n : string) :
  Py.has_slash n = false -> Py.head_of (d +:+ "/" +:+ n) = d +:+ "/".
Proof.
  intros Hn. rewrite head_of_app_slash by reflexivity.
  simpl. rewrite Hn. reflexivity.
Qed.

(** X7.  For a root given as [d/n], with [d] not empty and not ending
    with a slash and [n] a file name ending with .md, the directory walked
    is [d], the note name is [n], and when the directory [d] itself lists
    [n] the root is resolved to the path given. *)
Theorem X7_root_at_path_given (fs : FileSystem) (d n : string)
    (dirs files : list string) (after : list (string * list string * list string)) :
  d <> "" -> Py.endswith d "/" = false ->
  Py.has_slash n = false -> Py.endswith n md = true ->
  os_walk fs d = (d, dirs, files) :: after ->
  n ∈ files ->
  Py.dirname (d +:+ "/" +:+ n) = d /\
  note_name (d +:+ "/" +:+ n) = n /\
  find_note fs (Py.dirname (d +:+ "/" +:+ n)) (d +:+ "/" +:+ n)
    = Some (d +:+ "/" +:+ n).
Proof.
  intros Hd Hde Hn Hmd Hwalk Hfiles.
  destruct (rstrip_slash_dir d Hd Hde) as [Hall Hstrip].
  assert (Hdir : Py.dirname (d +:+ "/" +:+ n) = d).
  { unfold Py.dirname. rewrite head_of_below by exact Hn. rewrite Hall.
    destruct (String.eqb (d +:+ "/") "") eqn:He.
    - apply String.eqb_eq in He. destruct d; discriminate.
    - simpl. exact Hstrip. }
  assert (Hname : note_name (d +:+ "/" +:+ n) = n).
  { unfold note_name. rewrite endswith_md_below, Hmd. apply basename_below, Hn. }
  split; [exact Hdir|]. split; [exact Hname|].
  rewrite Hdir.
  rewrite (find_note_first_listed fs d (d +:+ "/" +:+ n) [] after d dirs files Hwalk);
    [| constructor | rewrite Hname; exact Hfiles].
  rewrite Hname. unfold Py.join.
  destruct (Py.startswith n "/") eqn:Hs.
  { destruct n as [|c n']; [discriminate|]. cbn [Py.startswith] in Hs.
    apply andb_true_iff in Hs as [Hs _]. apply Ascii.eqb_eq in Hs. subst c.
    simpl in Hn. discriminate Hn. }
  rewrite Hde. destruct (String.eqb d "") eqn:He; [|reflexivity].
  apply String.eqb_eq in He. contradiction.
Qed.

Lemma X7_witness :
  find_note TwoLinks.fs (Py.dirname "vault/Portfolio.md") "vault/Portfolio.md"
  = Some "vault/Portfolio.md".
Proof.
  apply (X7_root_at_path_given TwoLinks.fs "vault" "Portfolio.md" []
           ["Portfolio.md"; "Projects.md"; "Skills.md"] []).
  - discriminate.
  - reflexivity.
  - reflexivity.
  - reflexivity.
  - reflexivity.
  - set_solver.
Defined.

(** X8.  A link that starts with a slash and whose name the walk does not
    list is looked up as the absolute path it spells (with .md appended
    unless it ends with it), whatever the directory of the root: the
    traversal can read a file outside that directory. *)
Theorem X8_absolute_link (fs : FileSystem) (base_dir link : string) :
  Py.startswith link "/" = true ->
  search_walk (note_name link) (os_walk fs base_dir) = None ->
  potential_path base_dir link = note_name_as_specified link /\
  find_note fs base_dir link =
    if os_path_exists fs (note_name_as_specified link)
    then Some (note_name_as_specified link) else None.
Proof.
  intros Hs Hwalk.
  assert (Hp : potential_path base_dir link = note_name_as_specified link).
  { unfold potential_path, note_name_as_specified, Py.join. rewrite Hs. reflexivity. }
  split; [exact Hp|].
  unfold find_note. rewrite Hwalk, Hp. reflexivity.
Qed.

Lemma X8_witness :
  find_note Outside.fs "vault" "/home/me/diary" = Some "/home/me/diary.md" /\
  parse_obsidian_vault 2 Outside.fs Outside.master
  = Some (note_block "vault/Portfolio.md" "See [[/home/me/diary]]."
          +:+ note_block "/home/me/diary.md" "Private.").
Proof.
  split; [|vm_compute; reflexivity].
  apply (proj2 (X8_absolute_link Outside.fs "vault" "/home/me/diary"
                  eq_refl eq_refl)).
Defined.

(** ** The links of a text *)

Section LinkFacts.

Lemma startswith_two (c a b : ascii) (r : string) :
  Py.startswith (String c r) (String a (String b "")) =
  Ascii.eqb a c && match r with
                   | EmptyString => false
                   | String h _ => Ascii.eqb b h
                   end.
Proof.
  cbn [Py.startswith]. destruct r as [|h r]; cbn [Py.startswith]; [reflexivity|].
  destruct r; rewrite andb_true_r; reflexivity.
Qed.

(** Whether a text starts with two given characters depends on its first
    two characters only. *)
Lemma startswith_two_app (c a b h : ascii) (x t1 t2 : string) :
  Py.startswith (String c (x +:+ String h t1)) (String a (String b "")) =
  Py.startswith (String c (x +:+ String h t2)) (String a (String b "")).
Proof. rewrite !startswith_two. destruct x; reflexivity. Qed.

Lemma occurs_in_cons (k : string) (c : ascii) (s : string) :
  PyVal.occurs_in k (String c s) =
  Py.startswith (String c s) k || PyVal.occurs_in k s.
Proof. reflexivity. Qed.

Lemma startswith_drop (s p : string) :
  Py.startswith s p = true -> s = p +:+ Py.drop (String.length p) s.
Proof.
  revert s. induction p as [|a p IH]; intros s H; [reflexivity|].
  destruct s as [|b s]; [discriminate|]. cbn [Py.startswith] in H.
  apply andb_true_iff in H as [Hab H]. apply Ascii.eqb_eq in Hab. subst b.
  simpl. rewrite <- (IH s H). reflexivity.
Qed.

Lemma lazy_until_close_cons (c : ascii) (s : string) :
  Re.lazy_until_close (String c s) =
  if Py.startswith (String c s) "]]" then Some ("", Py.drop 2 (String c s))
  else if Ascii.eqb c Py.newline then None
  else match Re.lazy_until_close s with
       | Some (group, rest) => Some (String c group, rest)
       | None => None
       end.
Proof. reflexivity. Qed.

(** What a successful match of the lazy group says about the text. *)
Lemma lazy_until_close_sound (s group rest : string) :
  Re.lazy_until_close s = Some (group, rest) ->
  s = group +:+ "]]" +:+ rest /\
  has_newline group = false /\
  PyVal.occurs_in "]]" (group +:+ "]") = false.
Proof.
  revert group rest. induction s as [|c s IH]; intros group rest H.
  - discriminate H.
  - rewrite lazy_until_close_cons in H.
    destruct (Py.startswith (String c s) "]]") eqn:Hs.
    + injection H as <- <-. split; [|split; reflexivity].
      exact (startswith_drop _ "]]" Hs).
    + destruct (Ascii.eqb c Py.newline) eqn:Hc; [discriminate|].
      destruct (Re.lazy_until_close s) as [[g r]|] eqn:Hr; [|discriminate].
      injection H as <- <-. destruct (IH g r eq_refl) as (-> & Hnl & Hocc).
      split; [reflexivity|]. split.
      * simpl. rewrite Hc, Hnl. reflexivity.
      * change (String c g +:+ "]") with (String c (g +:+ "]")).
        rewrite occurs_in_cons, Hocc, orb_false_r.
        change (g +:+ "]") with (g +:+ String "]" "").
        rewrite (startswith_two_app c "]" "]" "]" g "" ("]" +:+ r)).
        exact Hs.
Qed.

Lemma lazy_until_close_complete (group rest : string) :
  has_newline group = false ->
  PyVal.occurs_in "]]" (group +:+ "]") = false ->
  Re.lazy_until_close (group +:+ "]]" +:+ rest) = Some (group, rest).
Proof.
  induction group as [|c g IH]; intros Hnl Hocc.
  - change ("" +:+ "]]" +:+ rest) with (String "]" (String "]" rest)).
    rewrite lazy_until_close_cons, startswith_two. reflexivity.
  - change (String c g +:+ "]]" +:+ rest) with (String c (g +:+ "]]" +:+ rest)).
    rewrite lazy_until_close_cons.
    change (String c g +:+ "]") with (String c (g +:+ "]")) in Hocc.
    rewrite occurs_in_cons in Hocc. apply orb_false_iff in Hocc as [Hs Hocc].
    simpl in Hnl. apply orb_false_iff in Hnl as [Hc Hnl].
    change (g +:+ "]") with (g +:+ String "]" "") in Hs.
    rewrite (startswith_two_app c "]" "]" "]" g "" ("]" +:+ rest)) in Hs.
    change (g +:+ String "]" ("]" +:+ rest)) with (g +:+ "]]" +:+ rest) in Hs.
    rewrite Hs, Hc, (IH Hnl Hocc). reflexivity.
Qed.

Lemma match_here_sound (s group rest : string) :
  Re.match_here s = Some (group, rest) ->
  s = "[[" +:+ group +:+ "]]" +:+ rest /\
  has_newline group = false /\
  PyVal.occurs_in "]]" (group +:+ "]") = false.
Proof.
  unfold Re.match_here. destruct (Py.startswith s "[[") eqn:Hs; [|discriminate].
  intros (Heq & Hnl & Hocc)%lazy_until_close_sound.
  split; [|auto].
  rewrite (startswith_drop s "[[" Hs). simpl String.length. rewrite Heq. reflexivity.
Qed.

(** X9.  Every link that [findall] returns stands in the text between
    "[[" and "]]"; it has no newline, does not contain "]]" and does not end
    with "]". *)
Theorem X9_links_are_delimited (content link : string) :
  link ∈ Re.findall content ->
  (exists before after, content = before +:+ "[[" +:+ link +:+ "]]" +:+ after) /\
  has_newline link = false /\
  PyVal.occurs_in "]]" (link +:+ "]") = false.
Proof.
  unfold Re.findall. generalize (S (String.length content)) as n.
  intros n. revert content. induction n as [|n IH]; intros content Hin.
  - inversion Hin.
  - cbn [Re.findall_from] in Hin.
    destruct (Re.match_here content) as [[g r]|] eqn:Hm.
    + apply match_here_sound in Hm as (Heq & Hnl & Hocc).
      apply elem_of_cons in Hin as [-> | Hin].
      * split; [exists "", r; exact Heq | auto].
      * destruct (IH r Hin) as ((b & a & Hr) & ? & ?). split; [|auto].
        exists ("[[" +:+ g +:+ "]]" +:+ b), a. rewrite Heq, Hr.
        rewrite !append_assoc. reflexivity.
    + destruct content as [|c s]; [inversion Hin|].
      destruct (IH s Hin) as ((b & a & Hr) & ? & ?). split; [|auto].
      exists (String c b), a. rewrite Hr. reflexivity.
Qed.

Lemma X9_witness :
  has_newline "Skills" = false /\
  exists before after,
    "About me: [[Skills]], then [[Projects]]."
    = before +:+ "[[" +:+ "Skills" +:+ "]]" +:+ after.
Proof.
  destruct (X9_links_are_delimited "About me: [[Skills]], then [[Projects]]." "Skills")
    as (Hd & Hnl & _).
  - apply list_elem_of_In. vm_compute. auto.
  - split; [exact Hnl | exact Hd].
Defined.

Lemma match_here_none (s : string) :
  Py.startswith s "[[" = false -> Re.match_here s = None.
Proof. unfold Re.match_here. intros ->. reflexivity. Qed.

(** X10.  A text in which "[[" does not occur has no links. *)
Theorem X10_no_brackets_no_links (content : string) :
  PyVal.occurs_in "[[" content = false -> Re.findall content = [].
Proof.
  induction content as [|c s IH]; intros Hocc; [reflexivity|].
  rewrite occurs_in_cons in Hocc. apply orb_false_iff in Hocc as [Hs Hocc].
  rewrite findall_unfold, (match_here_none _ Hs). apply IH, Hocc.
Qed.

Lemma X10_witness : Re.findall "Rocq, OCaml [and] more" = [].
Proof. apply X10_no_brackets_no_links. reflexivity. Defined.

(** X11.  The links of a text are found one after the other: behind a
    stretch of text without "[[" that does not end with "[", a link written
    between "[[" and "]]" (without newline, without "]]", not ending with
    "]") is the first link, and the others are the links of the text behind
    it. *)
Theorem X11_links_in_sequence (before link after : string) :
  PyVal.occurs_in "[[" (before +:+ "[") = false ->
  has_newline link = false ->
  PyVal.occurs_in "]]" (link +:+ "]") = false ->
  Re.findall (before +:+ "[[" +:+ link +:+ "]]" +:+ after)
  = link :: Re.findall after.
Proof.
  intros Hb Hnl Hocc. induction before as [|c b IH].
  - change ("" +:+ "[[" +:+ link +:+ "]]" +:+ after)
      with (String "[" (String "[" (link +:+ "]]" +:+ after))).
    rewrite findall_unfold. unfold Re.match_here. rewrite startswith_two.
    change (Py.drop 2 (String "[" (String "[" (link +:+ "]]" +:+ after))))
      with (link +:+ "]]" +:+ after).
    rewrite (lazy_until_close_complete link after Hnl Hocc). reflexivity.
  - change (String c b +:+ "[") with (String c (b +:+ "[")) in Hb.
    rewrite occurs_in_cons in Hb. apply orb_false_iff in Hb as [Hs Hb].
    change (String c b +:+ "[[" +:+ link +:+ "]]" +:+ after)
      with (String c (b +:+ "[[" +:+ link +:+ "]]" +:+ after)).
    rewrite findall_unfold.
    change (b +:+ "[") with (b +:+ String "[" "") in Hs.
    rewrite (startswith_two_app c "[" "[" "[" b "" ("[" +:+ link +:+ "]]" +:+ after))
      in Hs.
    change (b +:+ String "[" ("[" +:+ link +:+ "]]" +:+ after))
      with (b +:+ "[[" +:+ link +:+ "]]" +:+ after) in Hs.
    rewrite (match_here_none _ Hs). apply IH, Hb.
Qed.

Lemma X11_witness :
  Re.findall ("See " +:+ "[[" +:+ "Skills|what I know" +:+ "]]" +:+ " and [[Projects#2024]].")
  = ["Skills|what I know"; "Projects#2024"].
Proof.
  rewrite (X11_links_in_sequence "See " "Skills|what I know" " and [[Projects#2024]].")
    by reflexivity.
  reflexivity.
Defined.

End LinkFacts.

(** ** [main] after the traversal *)

Section MainFacts.

Variable w : World.

Lemma effects_app (evs1 evs2 : list event) :
  effects (evs1 ++ evs2) = effects evs1 ++ effects evs2.
Proof. apply List.filter_app. Qed.

Lemma effects_prints (lines : list string) : effects (map EvPrint lines) = [].
Proof. induction lines as [|x lines IH]; [reflexivity|exact IH]. Qed.

(** With a corpus that is not empty, [main] goes on with
    [main_continue]. *)
Lemma main_with_corpus (fuel : nat) (portfolio_path job_description_path : string)
    (st : state) :
  traverse fuel (world_fs w) portfolio_path = Some st ->
  vault_content st <> "" ->
  main fuel w portfolio_path job_description_path =
  Some ((EvPrint "Step 1: Parsing your Obsidian portfolio..."
         :: map EvPrint (printed st))
        ++ fst (main_continue w (vault_content st) job_description_path),
        snd (main_continue w (vault_content st) job_description_path)).
Proof.
  intros Hrun Hne. unfold main. rewrite Hrun.
  destruct (String.eqb (vault_content st) "") eqn:He.
  - apply String.eqb_eq in He. contradiction.
  - destruct (main_continue w (vault_content st) job_description_path). reflexivity.
Qed.

Lemma effects_step1 (st : state) (evs : list event) :
  effects ((EvPrint "Step 1: Parsing your Obsidian portfolio..."
            :: map EvPrint (printed st)) ++ evs) = effects evs.
Proof.
  rewrite effects_app.
  change (effects (EvPrint "Step 1: Parsing your Obsidian portfolio..."
                   :: map EvPrint (printed st)))
    with (effects (map EvPrint (printed st))).
  rewrite effects_prints. reflexivity.
Qed.

Lemma generate_requests (api : Api) (portfolio_context job_description : string) :
  snd (generate_resume_suggestions api portfolio_context job_description)
  = [build_request api (build_prompt portfolio_context job_description)].
Proof. reflexivity. Qed.

(** X12.  With a corpus that is not empty, when reading the job
    description raises an exception of the [Exception] hierarchy, [main]
    prints one line about it (a line of its own for a file not found) and
    returns: the only thing it did besides printing is the attempt to open
    the job description; no request is sent and no file is written. *)
Theorem X12_job_description_unreadable (fuel : nat)
    (portfolio_path job_description_path : string) (st : state) (e : exn) :
  traverse fuel (world_fs w) portfolio_path = Some st ->
  vault_content st <> "" ->
  read_text w job_description_path = Raise e ->
  is_exception e = true ->
  exists evs,
    main fuel w portfolio_path job_description_path
      = Some (evs ++ [EvPrint
                        match e with
                        | FileNotFoundError _ =>
                            "Error: Job description file not found at "
                            +:+ job_description_path
                        | _ =>
                            "An error occurred while reading the job description: "
                            +:+ exn_str (world_api w) e
                        end], None) /\
    effects (evs ++ [EvPrint
                       match e with
                       | FileNotFoundError _ =>
                           "Error: Job description file not found at "
                           +:+ job_description_path
                       | _ =>
                           "An error occurred while reading the job description: "
                           +:+ exn_str (world_api w) e
                       end])
    = [EvOpenRead job_description_path].
Proof.
  intros Hrun Hne Hread He.
  rewrite (main_with_corpus _ _ _ _ Hrun Hne).
  unfold main_continue. rewrite Hread.
  destruct e; try discriminate He; cbn [is_exception fst snd];
    (eexists; split; [rewrite app_assoc; reflexivity|];
     rewrite <- app_assoc, effects_step1; reflexivity).
Qed.

(** X13.  With a corpus that is not empty and a job description that is
    read, when [generate_resume_suggestions] returns a string and the output
    file can be opened and written, [main] sends the one request, writes
    exactly that string to "resume_suggestions.txt" and ends by printing the
    success line, also when the string is the text of an error of the
    request. *)
Theorem X13_returned_text_is_saved (fuel : nat)
    (portfolio_path job_description_path : string) (st : state)
    (job_description text : string) :
  traverse fuel (world_fs w) portfolio_path = Some st ->
  vault_content st <> "" ->
  read_text w job_description_path = Ok job_description ->
  fst (generate_resume_suggestions (world_api w) (vault_content st) job_description)
    = Ok (JStr text) ->
  open_write w output_filename = Ok tt ->
  write_text w output_filename text = Ok tt ->
  exists evs,
    main fuel w portfolio_path job_description_path = Some (evs, None) /\
    effects evs =
      [EvOpenRead job_description_path;
       EvPost (build_request (world_api w)
                 (build_prompt (vault_content st) job_description));
       EvOpenWrite output_filename;
       EvWrite text] /\
    last evs = Some (EvPrint (Py.nl +:+ "Success! Your resume suggestions have been saved to '"
                              +:+ output_filename +:+ "'")).
Proof.
  intros Hrun Hne Hread Hgen Hopen Hwrite.
  rewrite (main_with_corpus _ _ _ _ Hrun Hne).
  unfold main_continue. rewrite Hread.
  destruct (generate_resume_suggestions (world_api w) (vault_content st) job_description)
    as [suggestions reqs] eqn:Hg.
  assert (Hreqs : reqs = [build_request (world_api w)
                            (build_prompt (vault_content st) job_description)]).
  { rewrite <- (generate_requests (world_api w) (vault_content st) job_description).
    rewrite Hg. reflexivity. }
  cbn [fst] in Hgen. subst suggestions reqs.
  unfold save_suggestions. rewrite Hopen, Hwrite. cbn [fst snd map].
  eexists. split; [reflexivity|]. split.
  - rewrite effects_step1. reflexivity.
  - rewrite !app_assoc. apply last_snoc.
Qed.

End MainFacts.

Lemma X13_witness :
  exists evs,
    main 3 (Office.world Endpoint.failing false) TwoLinks.master "job.txt"
      = Some (evs, None) /\
    EvWrite "An error occurred with the API request: 500 Server Error: Internal Server Error for url"
      ∈ evs /\
    last evs = Some (EvPrint (Py.nl +:+ "Success! Your resume suggestions have been saved to '"
                              +:+ output_filename +:+ "'")).
Proof.
  destruct (X13_returned_text_is_saved (Office.world Endpoint.failing false) 3
              TwoLinks.master "job.txt"
              Office.after_traversal
              Office.job
              "An error occurred with the API request: 500 Server Error: Internal Server Error for url")
    as (evs & Hmain & Heff & Hlast).
  - vm_compute. reflexivity.
  - discriminate.
  - reflexivity.
  - reflexivity.
  - reflexivity.
  - reflexivity.
  - exists evs. split; [exact Hmain|]. split; [|exact Hlast].
    assert (Hin : EvWrite "An error occurred with the API request: 500 Server Error: Internal Server Error for url"
                    ∈ effects evs) by (rewrite Heff; set_solver).
    apply list_elem_of_In in Hin. apply list_elem_of_In.
    apply List.filter_In in Hin. tauto.
Defined.

Lemma X12_witness :
  exists evs,
    main 3 (Office.world Endpoint.failing false) TwoLinks.master "missing.txt"
      = Some (evs, None) /\
    last evs = Some (EvPrint "Error: Job description file not found at missing.txt") /\
    effects evs = [EvOpenRead "missing.txt"].
Proof.
  destruct (X12_job_description_unreadable (Office.world Endpoint.failing false) 3
              TwoLinks.master "missing.txt"
              Office.after_traversal
              (FileNotFoundError "missing.txt"))
    as (evs & Hmain & Heff).
  - vm_compute. reflexivity.
  - discriminate.
  - reflexivity.
  - reflexivity.
  - eexists. split; [exact Hmain|]. split; [apply last_snoc | exact Heff].
Defined.

Example office_traversal :
  traverse 3 TwoLinks.fs TwoLinks.master = Some Office.after_traversal.
Proof. vm_compute. reflexivity. Qed.

Section MainEdges.

Variable w : World.

(** X14.  When the output file cannot be opened or written (an exception
    of the [Exception] hierarchy), [main] does not lose the text: it prints
    the error, the line "--- AI Response ---" and the text itself, and
    returns without raising. *)
Theorem X14_write_failure_prints_text (fuel : nat)
    (portfolio_path job_description_path : string) (st : state)
    (job_description text : string) (e : exn) :
  traverse fuel (world_fs w) portfolio_path = Some st ->
  vault_content st <> "" ->
  read_text w job_description_path = Ok job_description ->
  fst (generate_resume_suggestions (world_api w) (vault_content st) job_description)
    = Ok (JStr text) ->
  open_write w output_filename = Raise e \/
  (open_write w output_filename = Ok tt /\
   write_text w output_filename text = Raise e) ->
  is_exception e = true ->
  exists evs,
    main fuel w portfolio_path job_description_path
      = Some (evs ++ [EvPrint (Py.nl +:+ "An error occurred while writing the output file: "
                               +:+ exn_str (world_api w) e);
                      EvPrint (Py.nl +:+ "--- AI Response ---");
                      EvPrint text], None).
Proof.
  intros Hrun Hne Hread Hgen Hfail He.
  rewrite (main_with_corpus w _ _ _ _ Hrun Hne).
  unfold main_continue. rewrite Hread.
  destruct (generate_resume_suggestions (world_api w) (vault_content st) job_description)
    as [suggestions reqs] eqn:Hg.
  cbn [fst] in Hgen. subst suggestions.
  unfold save_suggestions.
  destruct Hfail as [Hopen | [Hopen Hwrite]].
  - rewrite Hopen, He. cbn [fst snd]. eexists. rewrite !app_assoc. reflexivity.
  - rewrite Hopen, Hwrite, He. cbn [fst snd]. eexists. rewrite !app_assoc. reflexivity.
Qed.

(** X15.  When the text field of the response is not a string, [main]
    opens the output file and writes nothing to it: the write raises a
    [TypeError], and [main] prints the error, the line "--- AI Response ---"
    and the value as [str] shows it. *)
Theorem X15_text_that_is_no_string (fuel : nat)
    (portfolio_path job_description_path : string) (st : state)
    (job_description : string) (v : json) :
  traverse fuel (world_fs w) portfolio_path = Some st ->
  vault_content st <> "" ->
  read_text w job_description_path = Ok job_description ->
  fst (generate_resume_suggestions (world_api w) (vault_content st) job_description)
    = Ok v ->
  (forall text, v <> JStr text) ->
  open_write w output_filename = Ok tt ->
  exists evs,
    main fuel w portfolio_path job_description_path
      = Some (evs ++ [EvOpenWrite output_filename;
                      EvPrint (Py.nl +:+ "An error occurred while writing the output file: "
                               +:+ exn_str (world_api w) (TypeError "write" v));
                      EvPrint (Py.nl +:+ "--- AI Response ---");
                      EvPrint (py_str w v)], None) /\
    effects (evs ++ [EvOpenWrite output_filename])
    = [EvOpenRead job_description_path;
       EvPost (build_request (world_api w)
                 (build_prompt (vault_content st) job_description));
       EvOpenWrite output_filename].
Proof.
  intros Hrun Hne Hread Hgen Hns Hopen.
  rewrite (main_with_corpus w _ _ _ _ Hrun Hne).
  unfold main_continue. rewrite Hread.
  destruct (generate_resume_suggestions (world_api w) (vault_content st) job_description)
    as [suggestions reqs] eqn:Hg.
  assert (Hreqs : reqs = [build_request (world_api w)
                            (build_prompt (vault_content st) job_description)]).
  { rewrite <- (generate_requests (world_api w) (vault_content st) job_description).
    rewrite Hg. reflexivity. }
  cbn [fst] in Hgen. subst suggestions reqs.
  unfold save_suggestions. rewrite Hopen.
  exists ((EvPrint "Step 1: Parsing your Obsidian portfolio..."
           :: map EvPrint (printed st))
          ++ [EvPrint ("Successfully parsed " +:+ pretty (Py.len (vault_content st))
                       +:+ " characters of portfolio data.");
              EvPrint (Py.nl +:+ "Step 2: Reading job description...");
              EvOpenRead job_description_path;
              EvPrint "Successfully read job description.";
              EvPrint (Py.nl +:+ "Step 3: Generating tailored resume suggestions with AI...");
              EvPost (build_request (world_api w)
                        (build_prompt (vault_content st) job_description))]).
  split; [|rewrite <- app_assoc, effects_step1; reflexivity].
  destruct v; try (exfalso; eapply Hns; reflexivity);
    cbn [is_exception fst snd map]; rewrite <- !app_assoc; reflexivity.
Qed.

(** The effects of [main_continue], and what each of them requires. *)
Lemma main_continue_effects (portfolio_context job_description_path : string) :
  effects (fst (main_continue w portfolio_context job_description_path))
    = [EvOpenRead job_description_path] \/
  exists job_description,
    read_text w job_description_path = Ok job_description /\
    (effects (fst (main_continue w portfolio_context job_description_path))
       = [EvOpenRead job_description_path;
          EvPost (build_request (world_api w)
                    (build_prompt portfolio_context job_description))] \/
     (exists v,
         fst (generate_resume_suggestions (world_api w) portfolio_context
                job_description) = Ok v /\
         effects (fst (main_continue w portfolio_context job_description_path))
           = [EvOpenRead job_description_path;
              EvPost (build_request (world_api w)
                        (build_prompt portfolio_context job_description));
              EvOpenWrite output_filename]) \/
     (exists text,
         fst (generate_resume_suggestions (world_api w) portfolio_context
                job_description) = Ok (JStr text) /\
         open_write w output_filename = Ok tt /\
         effects (fst (main_continue w portfolio_context job_description_path))
           = [EvOpenRead job_description_path;
              EvPost (build_request (world_api w)
                        (build_prompt portfolio_context job_description));
              EvOpenWrite output_filename;
              EvWrite text])).
Proof.
  unfold main_continue.
  destruct (read_text w job_description_path) as [jd|e].
  - right. exists jd. split; [reflexivity|].
    destruct (generate_resume_suggestions (world_api w) portfolio_context jd)
      as [suggestions reqs] eqn:Hg.
    assert (Hreqs : reqs = [build_request (world_api w)
                              (build_prompt portfolio_context jd)]).
    { rewrite <- (generate_requests (world_api w) portfolio_context jd).
      rewrite Hg. reflexivity. }
    subst reqs. cbn [fst]. destruct suggestions as [v|e].
    + unfold save_suggestions.
      destruct (open_write w output_filename) as [[]|e].
      * destruct v;
          try (right; left; eexists; split; [reflexivity|];
               cbn [is_exception fst snd map]; reflexivity).
        right. right. exists s. split; [reflexivity|]. split; [reflexivity|].
        destruct (write_text w output_filename s) as [[]|e];
          [|destruct (is_exception e)]; reflexivity.
      * right. left. eexists. split; [reflexivity|].
        destruct (is_exception e); reflexivity.
    + left. reflexivity.
  - left. destruct e; try reflexivity.
Qed.

(** X16.  In every run of [main] the effects other than printing are one
    of five sequences, each the one before with one more effect: nothing;
    the job description opened; then the one request sent; then the output
    file opened; then one text written.  The job description is opened only
    with a corpus that is not empty; the request is sent only when the job
    description was read, and its prompt is built from the corpus and the
    text read; the output file is opened only when
    [generate_resume_suggestions] returned a value; the text written is the
    string it returned.  So at most one request is sent, never before or
    without the job description, and nothing is written before the request
    has returned. *)
Theorem X16_effects_in_order (fuel : nat)
    (portfolio_path job_description_path : string)
    (evs : list event) (escaped : option exn) :
  main fuel w portfolio_path job_description_path = Some (evs, escaped) ->
  exists st,
    traverse fuel (world_fs w) portfolio_path = Some st /\
    (effects evs = [] \/
     (vault_content st <> "" /\ effects evs = [EvOpenRead job_description_path]) \/
     exists job_description,
       vault_content st <> "" /\
       read_text w job_description_path = Ok job_description /\
       (effects evs
          = [EvOpenRead job_description_path;
             EvPost (build_request (world_api w)
                       (build_prompt (vault_content st) job_description))] \/
        (exists v,
            fst (generate_resume_suggestions (world_api w) (vault_content st)
                   job_description) = Ok v /\
            effects evs
              = [EvOpenRead job_description_path;
                 EvPost (build_request (world_api w)
                           (build_prompt (vault_content st) job_description));
                 EvOpenWrite output_filename]) \/
        (exists text,
            fst (generate_resume_suggestions (world_api w) (vault_content st)
                   job_description) = Ok (JStr text) /\
            open_write w output_filename = Ok tt /\
            effects evs
              = [EvOpenRead job_description_path;
                 EvPost (build_request (world_api w)
                           (build_prompt (vault_content st) job_description));
                 EvOpenWrite output_filename;
                 EvWrite text]))).
Proof.
  unfold main.
  destruct (traverse fuel (world_fs w) portfolio_path) as [st|]; [|discriminate].
  destruct (String.eqb (vault_content st) "") eqn:Hempty.
  - intros [= <- <-]. exists st. split; [reflexivity|]. left.
    rewrite ?app_comm_cons, effects_step1. reflexivity.
  - assert (Hne : vault_content st <> "").
    { intros Heq. rewrite Heq in Hempty. discriminate Hempty. }
    pose proof (main_continue_effects (vault_content st) job_description_path)
      as Hcases.
    destruct (main_continue w (vault_content st) job_description_path) as [evs' esc].
    cbn [fst] in Hcases.
    intros [= <- <-]. exists st. split; [reflexivity|].
    rewrite ?app_comm_cons, effects_step1.
    destruct Hcases as [Hread | (jd & Hread & Hcases)].
    + right. left. split; assumption.
    + right. right. exists jd. split; [exact Hne|]. split; [exact Hread|].
      exact Hcases.
Qed.

End MainEdges.

Lemma X14_witness :
  exists evs,
    main 3 (Office.world (Endpoint.answer Endpoint.good_body) true)
      TwoLinks.master "job.txt"
    = Some (evs ++ [EvPrint (Py.nl +:+ "An error occurred while writing the output file: error");
                    EvPrint (Py.nl +:+ "--- AI Response ---");
                    EvPrint "Lead with Rocq."], None).
Proof.
  apply (X14_write_failure_prints_text
           (Office.world (Endpoint.answer Endpoint.good_body) true) 3
           TwoLinks.master "job.txt" Office.after_traversal Office.job
           "Lead with Rocq." (OtherError "No space left on device")).
  - vm_compute. reflexivity.
  - discriminate.
  - reflexivity.
  - reflexivity.
  - right. split; reflexivity.
  - reflexivity.
Defined.

Lemma X15_witness :
  exists evs,
    main 3 (Office.world (Endpoint.answer Office.null_text_body) false)
      TwoLinks.master "job.txt"
    = Some (evs ++ [EvOpenWrite output_filename;
                    EvPrint (Py.nl +:+ "An error occurred while writing the output file: error");
                    EvPrint (Py.nl +:+ "--- AI Response ---");
                    EvPrint "None"], None).
Proof.
  destruct (X15_text_that_is_no_string
              (Office.world (Endpoint.answer Office.null_text_body) false) 3
              TwoLinks.master "job.txt" Office.after_traversal Office.job JNull)
    as (evs & Hmain & _).
  - vm_compute. reflexivity.
  - discriminate.
  - reflexivity.
  - reflexivity.
  - discriminate.
  - reflexivity.
  - exists evs. exact Hmain.
Defined.

Lemma X16_witness :
  exists evs st,
    main 3 (Office.world (Endpoint.answer Endpoint.good_body) false)
      TwoLinks.master "job.txt" = Some (evs, None) /\
    traverse 3 TwoLinks.fs TwoLinks.master = Some st /\
    (effects evs = [] \/
     (vault_content st <> "" /\ effects evs = [EvOpenRead "job.txt"]) \/
     exists job_description,
       vault_content st <> "" /\
       (if String.eqb "job.txt" "job.txt" then Ok Office.job
        else Raise (FileNotFoundError "job.txt")) = Ok job_description /\
       (effects evs
          = [EvOpenRead "job.txt";
             EvPost (build_request (Endpoint.answer Endpoint.good_body)
                       (build_prompt (vault_content st) job_description))] \/
        (exists v,
            fst (generate_resume_suggestions (Endpoint.answer Endpoint.good_body)
                   (vault_content st) job_description) = Ok v /\
            effects evs
              = [EvOpenRead "job.txt";
                 EvPost (build_request (Endpoint.answer Endpoint.good_body)
                           (build_prompt (vault_content st) job_description));
                 EvOpenWrite output_filename]) \/
        (exists text,
            fst (generate_resume_suggestions (Endpoint.answer Endpoint.good_body)
                   (vault_content st) job_description) = Ok (JStr text) /\
            Ok tt = Ok tt /\
            effects evs
              = [EvOpenRead "job.txt";
                 EvPost (build_request (Endpoint.answer Endpoint.good_body)
                           (build_prompt (vault_content st) job_description));
                 EvOpenWrite output_filename;
                 EvWrite text]))).
Proof.
  eexists.
  destruct (X16_effects_in_order
              (Office.world (Endpoint.answer Endpoint.good_body) false) 3
              TwoLinks.master "job.txt" _ None ltac:(vm_compute; reflexivity))
    as (st & Hrun & Hcases).
  exists st. split; [vm_compute; reflexivity|]. split; [exact Hrun | exact Hcases].
Defined.

(** ** The request and the response *)

Lemma startswith_app_self (k b : string) : Py.startswith (k +:+ b) k = true.
Proof.
  induction k as [|c k IH]; [destruct b; reflexivity|].
  change (String c k +:+ b) with (String c (k +:+ b)).
  cbn [Py.startswith]. rewrite Ascii.eqb_refl, IH. reflexivity.
Qed.

Lemma occurs_in_here (k b : string) : PyVal.occurs_in k (k +:+ b) = true.
Proof.
  assert (Hunfold : forall s,
             PyVal.occurs_in k s =
             Py.startswith s k ||
             match s with
             | EmptyString => false
             | String _ s' => PyVal.occurs_in k s'
             end) by (intros s; destruct s; reflexivity).
  rewrite Hunfold, startswith_app_self. reflexivity.
Qed.

Lemma occurs_in_app_r (k a s : string) :
  PyVal.occurs_in k s = true -> PyVal.occurs_in k (a +:+ s) = true.
Proof.
  intros H. induction a as [|c a IH]; [exact H|].
  change (String c a +:+ s) with (String c (a +:+ s)).
  rewrite occurs_in_cons, IH. apply orb_true_r.
Qed.

(** X18.  The one request that [generate_resume_suggestions] sends has
    a timeout of 120, and its body carries, under
    [contents[0]['parts'][0]['text']], a prompt in which the corpus and the
    job description both occur as they are. *)
Theorem X18_prompt_embeds_inputs (api : Api)
    (portfolio_context job_description : string) :
  exists req prompt,
    snd (generate_resume_suggestions api portfolio_context job_description) = [req] /\
    req_url req = API_URL api /\
    req_timeout req = 120%Z /\
    payload_text (req_json req) = Ok (JStr prompt) /\
    PyVal.occurs_in portfolio_context prompt = true /\
    PyVal.occurs_in job_description prompt = true.
Proof.
  exists (build_request api (build_prompt portfolio_context job_description)),
         (build_prompt portfolio_context job_description).
  repeat split.
  - unfold build_prompt. apply occurs_in_app_r, occurs_in_here.
  - unfold build_prompt. do 3 apply occurs_in_app_r. apply occurs_in_here.
Qed.

Section MissingKeys.

Variable api : Api.

(** X19.  A response object without "candidates", or whose "candidates"
    is empty, and a first candidate without "content", or whose "content"
    has no "parts", all give the text "Error: Could not extract valid
    content from API response. Full response: " followed by the response;
    a first part without "text" gives the text "An unexpected error
    occurred: " followed by the [KeyError]. *)
Theorem X19_missing_keys (portfolio_context job_description : string)
    (resp : response) (fields : list (string * json)) :
  requests_post api (build_request api (build_prompt portfolio_context job_description))
    = Ok resp ->
  ~ (400 <= status_code resp < 600)%Z ->
  response_json resp = Ok (JObj fields) ->
  let returned :=
    fst (generate_resume_suggestions api portfolio_context job_description) in
  let not_extracted :=
    Ok (JStr ("Error: Could not extract valid content from API response. Full response: "
              +:+ json_dumps api (JObj fields))) in
  (PyVal.lookup_field "candidates" fields = None -> returned = not_extracted) /\
  (PyVal.lookup_field "candidates" fields = Some (JArr []) ->
   returned = not_extracted) /\
  (forall candidate others,
      PyVal.lookup_field "candidates" fields = Some (JArr (JObj candidate :: others)) ->
      (PyVal.lookup_field "content" candidate = None -> returned = not_extracted) /\
      (forall content,
          PyVal.lookup_field "content" candidate = Some (JObj content) ->
          (PyVal.lookup_field "parts" content = None -> returned = not_extracted) /\
          (PyVal.lookup_field "parts" content = Some (JArr []) ->
           returned = not_extracted) /\
          (forall part more,
              PyVal.lookup_field "parts" content = Some (JArr (JObj part :: more)) ->
              PyVal.lookup_field "text" part = None ->
              returned = Ok (JStr ("An unexpected error occurred: "
                                   +:+ exn_str api (KeyError (JStr "text"))))))).
Proof.
  intros Hpost Hcode Hjson returned not_extracted. subst returned not_extracted.
  unfold generate_resume_suggestions, try_body. cbn [fst].
  rewrite Hpost. cbn [bind].
  assert (Hstatus : raise_for_status resp = Ok tt).
  { unfold raise_for_status.
    destruct (Z.leb 400 (status_code resp)) eqn:H1; [|reflexivity].
    destruct (Z.ltb (status_code resp) 600) eqn:H2; [|reflexivity].
    apply Z.leb_le in H1. apply Z.ltb_lt in H2. lia. }
  rewrite Hstatus, Hjson. cbn [bind].
  unfold extract_text, bind, PyVal.contains, PyVal.getitem, PyVal.getitem0.
  repeat match goal with
         | |- _ /\ _ => split
         | |- forall _, _ => intro
         end;
    repeat first
      [ progress cbn
      | match goal with
        | H : PyVal.lookup_field _ _ = _ |- _ => progress rewrite H
        end ];
    reflexivity.
Qed.

End MissingKeys.

Lemma X19_witness :
  fst (generate_resume_suggestions (Endpoint.answer (JObj [("error", JStr "quota")]))
         "portfolio" "job")
  = Ok (JStr "Error: Could not extract valid content from API response. Full response: {}").
Proof.
  apply (proj1 (X19_missing_keys (Endpoint.answer (JObj [("error", JStr "quota")]))
                  "portfolio" "job"
                  {| status_code := 200;
                     response_json := Ok (JObj [("error", JStr "quota")]) |}
                  [("error", JStr "quota")] eq_refl ltac:(simpl; lia) eq_refl)).
  reflexivity.
Defined.

(** ** The corpus while the loop runs *)

(** A run that returns also returns from every state it passes. *)
Lemma run_from_iterate (fs : FileSystem) (base_dir : string) (k : nat) :
  forall n st mid final,
    iterate fs base_dir k st = Some mid ->
    run fs base_dir n st = Some final ->
    run fs base_dir n mid = Some final.
Proof.
  induction k as [|k IH]; intros n st mid final Hit Hrun.
  - injection Hit as <-. exact Hrun.
  - simpl in Hit. destruct (step fs base_dir st) as [st1|] eqn:Hs; [|discriminate].
    destruct n as [|n]; simpl in Hrun; rewrite Hs in Hrun; [discriminate|].
    apply (run_more_fuel fs base_dir n (S n)); [|lia].
    eapply IH; eauto.
Qed.

(** X20.  What has been collected is never changed: the corpus after any
    number of iterations is an initial part of the corpus returned, and the
    blocks recorded so far are the first blocks of the result. *)
Theorem X20_corpus_only_grows (fs : FileSystem) (master_note_path : string)
    (k n : nat) (mid final : state) :
  iterate fs (Py.dirname master_note_path) k (initial_state master_note_path)
    = Some mid ->
  traverse n fs master_note_path = Some final ->
  exists es,
    entries final = entries mid ++ es /\
    vault_content final = vault_content mid +:+ render es.
Proof.
  intros Hit Hrun. unfold traverse in Hrun.
  apply (run_from_iterate _ _ _ _ _ _ _ Hit) in Hrun.
  apply run_appends in Hrun. exact Hrun.
Qed.

Lemma X20_witness :
  exists es,
    vault_content Office.after_traversal
    = note_block "vault/Portfolio.md" "About me: [[Skills]], then [[Projects]]."
      +:+ render es.
Proof.
  destruct (X20_corpus_only_grows TwoLinks.fs TwoLinks.master 1 3
              {| vault_content :=
                   note_block "vault/Portfolio.md"
                     "About me: [[Skills]], then [[Projects]].";
                 notes_to_visit := ["Skills"; "Projects"];
                 visited_notes := ∅ ∪ {["Portfolio.md"]};
                 printed := [];
                 entries :=
                   [{| entry_name := "Portfolio.md"; entry_path := "vault/Portfolio.md";
                       entry_content := "About me: [[Skills]], then [[Projects]]." |}] |}
              Office.after_traversal)
    as (es & _ & Hvc).
  - vm_compute. reflexivity.
  - vm_compute. reflexivity.
  - exists es. exact Hvc.
Defined.
